(** * splat: the split driver (split.py)

    A shallow embedding of [split.py]: the two symbol-table gatherers
    ([gather_c_funcs], [gather_c_variables]), the linker-script writer
    ([write_ldscript], [write_ld_addrs_h]) and the driver [main] that walks
    the segment descriptors of the configuration, runs every segment's
    [check]/[split], then every segment's [postsplit], and finally writes the
    linker script and the report of undefined functions.

    Python [str] values are modelled as [string] (sequences of ASCII
    characters), [int] as [Z], [dict] as [gmap] (or as an association list
    where insertion order is observable), [set] as [gset].  Output and calls
    into the segment classes are recorded as a trace of events. *)

From Stdlib Require Import ZArith NArith Ascii String List Lia HexadecimalString.
From stdpp Require Import base option list gmap sets strings sorting.

Set Warnings "-clear-no-such-hyp".

Open Scope string_scope.
Open Scope Z_scope.

(** ** Python string primitives *)

Module Py.

Definition LF : ascii := "010"%char.
Definition flag : ascii := "!"%char.

(** [str.isspace] on the ASCII range: TAB, LF, VT, FF, CR, FS, GS, RS, US
    and the space. *)
Definition isspace (c : ascii) : bool :=
  let n := N_of_ascii c in
  ((9 <=? n) && (n <=? 13) || (28 <=? n) && (n <=? 32))%N.

Fixpoint lstrip (s : string) : string :=
  match s with
  | String c s' => if isspace c then lstrip s' else s
  | EmptyString => EmptyString
  end.

(** [rstrip s] returns [""] exactly when everything left is white space. *)
Fixpoint rstrip (s : string) : string :=
  match s with
  | String c s' =>
      match rstrip s' with
      | EmptyString => if isspace c then EmptyString else String c EmptyString
      | r => String c r
      end
  | EmptyString => EmptyString
  end.

(** [s.strip()] *)
Definition strip (s : string) : string := rstrip (lstrip s).

(** [s.startswith(p)] *)
Definition startswith (s p : string) : bool := String.prefix p s.

(** [s.split(sep)] for a one-character separator: every occurrence of the
    separator cuts, so the result is never empty and may hold empty
    strings. *)
Fixpoint split (sep : ascii) (s : string) : list string :=
  match s with
  | EmptyString => [EmptyString]
  | String c s' =>
      if Ascii.eqb c sep then EmptyString :: split sep s'
      else match split sep s' with
           | w :: ws => String c w :: ws
           | [] => [String c EmptyString]
           end
  end.

(** [s.find(c)]: the index of the first occurrence, [-1] when there is
    none. *)
Fixpoint find (c : ascii) (s : string) : Z :=
  match s with
  | EmptyString => -1
  | String a s' =>
      if Ascii.eqb a c then 0
      else let r := find c s' in if r <? 0 then -1 else r + 1
  end.

Definition len (s : string) : Z := Z.of_nat (String.length s).

(** Python clamps slice bounds: a negative bound counts from the end. *)
Definition clamp (s : string) (i : Z) : nat :=
  let i' := if i <? 0 then i + len s else i in
  Z.to_nat (Z.min (Z.max i' 0) (len s)).

(** [s[i:j]] *)
Definition slice (s : string) (i j : Z) : string :=
  let a := clamp s i in
  let b := clamp s j in
  String.substring a (b - a) s.

(** [s[:j]] *)
Definition slice_to (s : string) (j : Z) : string := slice s 0 j.

(** [s[i:]] *)
Definition slice_from (s : string) (i : Z) : string :=
  let a := clamp s i in String.substring a (String.length s - a) s.

(** [s[i]] for a non-negative index; [None] stands for [IndexError]. *)
Definition index (s : string) (i : nat) : option ascii := String.get i s.

(** [s.replace(c, by)] for a one-character pattern. *)
Fixpoint replace (c : ascii) (by_ : string) (s : string) : string :=
  match s with
  | EmptyString => EmptyString
  | String a s' =>
      if Ascii.eqb a c then by_ ++ replace c by_ s'
      else String a (replace c by_ s')
  end.

(** [sep.join(l)] *)
Fixpoint join (sep : string) (l : list string) : string :=
  match l with
  | [] => EmptyString
  | [x] => x
  | x :: l' => x ++ sep ++ join sep l'
  end.

Definition upper_char (c : ascii) : ascii :=
  let n := N_of_ascii c in
  if ((97 <=? n) && (n <=? 122))%N then ascii_of_N (n - 32) else c.

(** [s.upper()] on ASCII text. *)
Fixpoint upper (s : string) : string :=
  match s with
  | EmptyString => EmptyString
  | String c s' => String (upper_char c) (upper s')
  end.

(** [f.readlines()]: the text cut after every line feed, the line feeds
    kept; a last line without line feed is kept too. *)
Fixpoint readlines_go (cur : string) (s : string) : list string :=
  match s with
  | EmptyString => match cur with EmptyString => [] | _ => [String.rev cur] end
  | String c s' =>
      if Ascii.eqb c LF then String.rev (String c cur) :: readlines_go EmptyString s'
      else readlines_go (String c cur) s'
  end.
Definition readlines (text : string) : list string := readlines_go EmptyString text.

(** *** [int(s, 0)] *)

Definition digit_val (c : ascii) : option Z :=
  let n := Z.of_N (N_of_ascii c) in
  if (48 <=? n) && (n <=? 57) then Some (n - 48)
  else if (97 <=? n) && (n <=? 122) then Some (n - 87)
  else if (65 <=? n) && (n <=? 90) then Some (n - 55)
  else None.

(** Digits of [base], single underscores allowed between digits;
    [need] says that a digit must come next. *)
Fixpoint digits (base : Z) (need : bool) (acc : Z) (s : string) : option Z :=
  match s with
  | EmptyString => if need then None else Some acc
  | String c s' =>
      if Ascii.eqb c "_"%char then
        if need then None else digits base true acc s'
      else
        match digit_val c with
        | Some d => if d <? base then digits base false (acc * base + d) s' else None
        | None => None
        end
  end.

(** After a base prefix one underscore may precede the first digit. *)
Definition prefixed (base : Z) (s : string) : option Z :=
  match s with
  | String "_" s' => digits base true 0 s'
  | _ => digits base true 0 s
  end.

Definition unsigned0 (s : string) : option Z :=
  match s with
  | String "0" (String "x" r) | String "0" (String "X" r) => prefixed 16 r
  | String "0" (String "o" r) | String "0" (String "O" r) => prefixed 8 r
  | String "0" (String "b" r) | String "0" (String "B" r) => prefixed 2 r
  | String "0" _ =>
      (* a decimal literal with a leading zero must be zero *)
      match digits 10 true 0 s with
      | Some 0 => Some 0
      | _ => None
      end
  | _ => digits 10 true 0 s
  end.

(** The white space that [int] skips around a literal: TAB, LF, VT, FF, CR
    and the space.  Unlike [str.strip] it leaves FS, GS, RS and US, which
    make the literal invalid. *)
Definition int_isspace (c : ascii) : bool :=
  let n := N_of_ascii c in
  ((9 <=? n) && (n <=? 13) || (n =? 32))%N.

Fixpoint int_lstrip (s : string) : string :=
  match s with
  | String c s' => if int_isspace c then int_lstrip s' else s
  | EmptyString => EmptyString
  end.

Fixpoint int_rstrip (s : string) : string :=
  match s with
  | String c s' =>
      match int_rstrip s' with
      | EmptyString => if int_isspace c then EmptyString else String c EmptyString
      | r => String c r
      end
  | EmptyString => EmptyString
  end.

Definition int_strip (s : string) : string := int_rstrip (int_lstrip s).

(** [int(s, 0)]; [None] stands for [ValueError]. *)
Definition int0 (s : string) : option Z :=
  match int_strip s with
  | String "-" r => Z.opp <$> unsigned0 r
  | String "+" r => unsigned0 r
  | r => unsigned0 r
  end.

(** *** [f"{n:X}"] *)

Definition format_X (z : Z) : string :=
  let body := upper (NilZero.string_of_uint (N.to_hex_uint (Z.to_N (Z.abs z)))) in
  if z <? 0 then String "-" body else body.

(** [os.path.join(a, b)] on POSIX paths. *)
Definition path_join (a b : string) : string :=
  if startswith b "/" then b
  else match a with
       | EmptyString => b
       | _ => if String.eqb (slice_from a (-1)) "/" then a ++ b else a ++ "/" ++ b
       end.

End Py.

(** ** Output files

    A file opened with ["w"] and written to is recorded as one event holding
    the path and the whole text written. *)

Definition NL : string := String Py.LF EmptyString.
Definition INDENT : string := "    ".

(** split.py, [write_ldscript]: the text of [<rom_name>.ld]. *)
Definition ldscript_text (sections : list string) : string :=
  ("SECTIONS" ++ NL ++ "{" ++ NL)
  ++ Py.join (NL ++ INDENT) (map (Py.replace Py.LF (NL ++ INDENT)) sections)
  ++ (NL ++ "}" ++ NL).

Definition write_ldscript (rom_name repo_path : string) (sections : list string)
  : string * string :=
  (Py.path_join repo_path (rom_name ++ ".ld"), ldscript_text sections).


(** ** Symbol tables

    A source file is given by its text, [None] when the file does not exist.
    A Python exception ([IndexError], [ValueError], [AttributeError]) aborts
    the gathering: the result is [None]. *)

(** [for line in lines: ...] with a body that may raise. *)
Fixpoint for_lines {S : Type} (body : S → string → option S) (st : S)
    (lines : list string) : option S :=
  match lines with
  | [] => Some st
  | line :: rest =>
      match body st line with
      | Some st' => for_lines body st' rest
      | None => None
      end
  end.

(** The lines of a file opened in text mode (line ends already translated
    to line feeds); a missing file has none. *)
Definition lines_of (file : option string) : list string :=
  match file with
  | Some text => Py.readlines text
  | None => []
  end.

Definition FuncState : Type := gmap Z string * gset string.

(** split.py l.72-83: one line of [include/functions.h]. *)
Definition functions_h_line (st : FuncState) (line : string) : option FuncState :=
  let '(funcs, labels_to_add) := st in
  if Py.startswith line "/* 0x" then
    let line_split := Py.split " " (Py.strip line) in
    addr_comment ← line_split !! 1%nat;
    addr ← Py.int0 (Py.slice_to addr_comment 10);
    tok ← line_split !! 4%nat;
    let name := Py.slice_to tok (Py.find "(" tok) in
    let labels_to_add :=
      if (10 <? Py.len addr_comment)
         && bool_decide (Py.index addr_comment 10 = Some Py.flag)
      then labels_to_add ∪ {[name]} else labels_to_add in
    Some (<[addr := name]> funcs, labels_to_add)
  else Some st.

(** split.py l.91-99: one line of [tools/symbol_addrs.txt]. *)
Definition symbol_addrs_line (st : FuncState) (line : string) : option FuncState :=
  let '(funcs, labels_to_add) := st in
  let line_split := Py.split ";" (Py.strip line) in
  name ← line_split !! 0%nat;
  let '(name, labels_to_add) :=
    if Py.startswith name "!"
    then (Py.slice_from name 1, labels_to_add ∪ {[Py.slice_from name 1]})
    else (name, labels_to_add) in
  field ← line_split !! 1%nat;
  addr ← Py.int0 field;
  Some (<[addr := name]> funcs, labels_to_add).

(** split.py, [gather_c_funcs]: first the declarations harvested in
    [include/functions.h], then the manual list [tools/symbol_addrs.txt],
    both into the same dictionary and the same set. *)
Definition gather_c_funcs (functions_h symbol_addrs : option string)
  : option FuncState :=
  st ← for_lines functions_h_line (∅, ∅) (lines_of functions_h);
  for_lines symbol_addrs_line st (lines_of symbol_addrs).

(** [re.search(r'[\\[;]', s)]: the position of the first backslash, opening
    bracket or semicolon; [None] when there is no match. *)
Definition name_end (c : ascii) : bool :=
  (Ascii.eqb c "\" || Ascii.eqb c "[" || Ascii.eqb c ";")%char.

Fixpoint search_name_end (s : string) : option Z :=
  match s with
  | EmptyString => None
  | String c s' => if name_end c then Some 0 else Z.succ <$> search_name_end s'
  end.

(** split.py l.112-120: one line of [include/variables.h]. *)
Definition variables_h_line (vars : gmap Z string) (line : string)
  : option (gmap Z string) :=
  if Py.startswith line "/* 0x" then
    let line_split := Py.split " " (Py.strip line) in
    addr_comment ← line_split !! 1%nat;
    addr ← Py.int0 addr_comment;
    tok ← last line_split;
    stop ← search_name_end tok;
    let name := Py.slice_to tok stop in
    Some (<[addr := name]> vars)
  else Some vars.

(** split.py l.127-133: one line of [undefined_syms.txt]. *)
Definition undefined_syms_line (vars : gmap Z string) (line : string)
  : option (gmap Z string) :=
  let line := Py.strip line in
  if negb (String.eqb line "") && negb (Py.startswith line "//") then
    let line_split := Py.split "=" line in
    name ← Py.strip <$> line_split !! 0%nat;
    field ← line_split !! 1%nat;
    addr ← Py.int0 (Py.slice_to (Py.strip field) (-1));
    Some (<[addr := name]> vars)
  else Some vars.

(** split.py, [gather_c_variables]. *)
Definition gather_c_variables (variables_h undefined_syms : option string)
  : option (gmap Z string) :=
  vars ← for_lines variables_h_line ∅ (lines_of variables_h);
  for_lines undefined_syms_line vars (lines_of undefined_syms).

(** split.py, [write_ld_addrs_h]: the text of the address header; [symbols]
    is an [OrderedDict], iterated in insertion order. *)
Definition ld_addrs_h_text (symbols : list (string * Z)) : string :=
  ("#ifndef _SPLAT_LD_ADDRS_H_" ++ NL ++ "#define _SPLAT_LD_ADDRS_H_" ++ NL ++ NL)
  ++ String.concat ""
       (map (λ '(symbol, addr),
               "extern void* " ++ symbol ++ ";" ++ NL
               ++ "#define LD_" ++ symbol ++ " " ++ "0x" ++ Py.format_X addr ++ NL
               ++ NL) symbols)
  ++ ("#endif" ++ NL).

Definition write_ld_addrs_h (repo_path h_path : string) (symbols : list (string * Z))
  : string * string :=
  (Py.path_join repo_path h_path, ld_addrs_h_text symbols).

(** ** The report of undefined functions (split.py l.218-224) *)

(** A Python set may hold [str] and [int] values side by side; a [str] never
    equals an [int]. *)
Definition PyVal : Type := string + Z.
Definition PStr (s : string) : PyVal := inl s.
Definition PInt (z : Z) : PyVal := inr z.

(** [names - addrs] for a set of [str] and a set of [int]: the names that are
    not, as Python values, members of [addrs]. *)
Definition minus_int_set (names : gset string) (addrs : gset Z) : gset string :=
  filter (λ n, PStr n ∉ (set_map PInt addrs : gset PyVal)) names.

(** [sorted(s)] for a set of [str]: ascending in the order of [str], which
    compares character codes from the left. *)
Definition sorted (s : gset string) : list string :=
  merge_sort String.le (elements s).

(** l.219-220 *)
Definition to_write (undefined_funcs defined_funcs : gset string)
    (c_funcs : gmap Z string) : list string :=
  let c_predefined_funcs : gset Z := dom c_funcs in
  sorted (minus_int_set (undefined_funcs ∖ defined_funcs) c_predefined_funcs).

(** l.224: the line written for one name. *)
Definition report_line (line : string) : string :=
  line ++ " = 0x" ++ Py.upper (Py.slice line 5 13) ++ ";" ++ NL.

(** l.221-224: the file written, if any. *)
Definition undefined_funcs_txt (repo_path : string)
    (undefined_funcs defined_funcs : gset string) (c_funcs : gmap Z string)
  : option (string * string) :=
  let lines := to_write undefined_funcs defined_funcs c_funcs in
  if (0 <? length lines)%nat
  then Some (Py.path_join repo_path "undefined_funcs.txt",
             String.concat "" (map report_line lines))
  else None.

(** ** Configuration *)

(** A value loaded by [yaml.safe_load]. *)
#[warnings="-register-all"]
Inductive yaml : Type :=
| YNull
| YBool (b : bool)
| YInt (z : Z)
| YStr (s : string)
| YSeq (items : list yaml)
| YMap (entries : list (string * yaml)).

(** [len(v)]; [None] stands for [TypeError]. *)
Definition yaml_len (v : yaml) : option nat :=
  match v with
  | YSeq items => Some (length items)
  | YMap entries => Some (length entries)
  | YStr s => Some (String.length s)
  | _ => None
  end.

(** [sub in s] for two strings. *)
Fixpoint contains (sub s : string) : bool :=
  String.prefix sub s
  || match s with
     | String _ s' => contains sub s'
     | EmptyString => false
     end.

(** split.py, [parse_file_start]: [split_file[0]] unless the key ["start"] is
    present.  On a sequence [in] looks for an item equal to ["start"], and
    indexing a sequence by a string raises. *)
Definition parse_file_start (split_file : yaml) : option yaml :=
  match split_file with
  | YSeq items =>
      if existsb (λ v, match v with YStr s => String.eqb s "start" | _ => false end) items
      then None else items !! 0%nat
  | YMap entries =>
      match list_find (λ kv, kv.1 = "start") entries with
      | Some (_, kv) => Some kv.2
      | None => None
      end
  | YStr s =>
      if contains "start" s then None
      else (λ c, YStr (String c EmptyString)) <$> Py.index s 0
  | _ => None
  end.

(** [--modes]: the default is the string ["all"], a given value is a list. *)
Inductive Modes : Type :=
| ModesStr (s : string)
| ModesList (l : list string).

(** [mode in options["modes"]] *)
Definition mode_in (mode : string) (modes : Modes) : bool :=
  match modes with
  | ModesStr s => contains mode s
  | ModesList l => bool_decide (mode ∈ l)
  end.

Record Options : Type := mkOptions {
  modes : Modes;
  verbose : bool;
  ld_addrs_header : option string
}.

(** The keys of the configuration that the driver reads; [None] is a missing
    key.  Of [config["options"]] only the key ["ld_addrs_header"] is read. *)
Record Config : Type := mkConfig {
  basename : option string;
  config_options : option (option string);
  config_segments : list yaml
}.

Definition Rom : Type := list Byte.byte.

(** ** Segments and segment classes *)

(** The attributes of a segment object that the driver reads or writes.
    [injected] says that [all_functions], [c_functions], [c_variables] and
    [c_labels_to_add] have been bound to the driver's own objects (l.185-188),
    so that the segment sees, and may update in place, the one set
    [defined_funcs]. *)
Record Segment : Type := mkSegment {
  seg_id : nat;                 (* identity: the position of its descriptor *)
  type : string;
  name : string;
  rom_start : Z;
  rom_end : Z;
  injected : bool;
  glabels_added : gset string;
  glabels_to_add : gset string
}.

(** What an injected segment reaches through its four attributes. *)
Record Shared : Type := mkShared {
  all_functions : gset string;
  c_functions : gmap Z string;
  c_variables : gmap Z string;
  c_labels_to_add : gset string
}.

(** What [split] leaves behind: the two label sets of the segment and, for
    an injected segment, the content of [all_functions] after the call. *)
Record SplitEffect : Type := mkSplitEffect {
  eff_glabels_added : gset string;
  eff_glabels_to_add : gset string;
  eff_all_functions : gset string
}.

(** The contract of a segment class.  A method that raises returns [false]
    or [None].  [split] receives the shared objects only when they were
    injected: it may then update [all_functions] in place, and it reads the
    two tables and the label set without changing them.  What a method does
    to the files is recorded as an event of the trace; the methods leave the
    driver's own lists and the descriptor attributes of the objects as they
    are, and [get_ld_section] returns. *)
Record SegClass : Type := mkSegClass {
  class_id : string;
  require_unique_name : bool;
  check : Segment → bool;
  split : Segment → option Shared → Rom → string → option SplitEffect;
  get_ld_section : Segment → string * list (string * Z);
  postsplit : Segment → list Segment → bool
}.

(** The class imported at l.13. *)
Definition N64SegCode : string := "segtypes.code.N64SegCode".

(** [type(segment) == N64SegCode] *)
Definition is_N64SegCode (cls : SegClass) : bool := String.eqb (class_id cls) N64SegCode.

(** ["N64Seg" + seg_type[0].upper() + seg_type[1:]] *)
Definition class_name (seg_type : string) : option string :=
  c ← Py.index seg_type 0;
  Some ("N64Seg" ++ Py.upper (String c EmptyString) ++ Py.slice_from seg_type 1).

(** ** The driver *)

Inductive Event : Type :=
| EvPrint (text : string)
| EvNew (id : nat)
| EvCheck (id : nat)
| EvSplit (id : nat)
| EvGetLdSection (id : nat)
| EvPostsplit (id : nat) (all_segments : list nat)
| EvWrite (path text : string).

Record State : Type := mkState {
  segments : list (SegClass * Segment);
  ld_sections : list string;
  ld_symbols : list (string * Z);
  seen_segment_names : gset string;
  defined_funcs : gset string;
  undefined_funcs : gset string;
  trace : list Event
}.

Definition init_state : State := mkState [] [] [] ∅ ∅ ∅ [].

Inductive Outcome : Type :=
| Exited (status : Z)
| Raised (exn : string).

(** The exit status of the process: an uncaught exception ends it with 1. *)
Definition exit_status (o : option Outcome) : Z :=
  match o with
  | None => 0
  | Some (Exited status) => status
  | Some (Raised _) => 1
  end.

Inductive Res (A : Type) : Type :=
| Ok (a : A) (st : State)
| Stop (o : Outcome) (st : State).
Arguments Ok {A} a st.
Arguments Stop {A} o st.

Definition M (A : Type) : Type := State → Res A.

Definition ret {A} (a : A) : M A := λ st, Ok a st.
Definition bind {A B} (m : M A) (k : A → M B) : M B :=
  λ st, match m st with
        | Ok a st' => k a st'
        | Stop o st' => Stop o st'
        end.

Notation "x <~ m ;; k" := (bind m (λ x, k))
  (at level 100, m at next level, right associativity).
Notation "m ;;; k" := (bind m (λ _, k))
  (at level 100, right associativity).

Definition raise {A} (exn : string) : M A := λ st, Stop (Raised exn) st.
Definition py_exit {A} (status : Z) : M A := λ st, Stop (Exited status) st.
Definition or_raise {A} (exn : string) (o : option A) : M A :=
  match o with
  | Some a => ret a
  | None => raise exn
  end.
Definition get {A} (f : State → A) : M A := λ st, Ok (f st) st.
Definition modify (f : State → State) : M unit := λ st, Ok tt (f st).
Definition when (b : bool) (m : M unit) : M unit := if b then m else ret tt.

Definition emit (e : Event) : M unit :=
  modify (λ st, mkState (segments st) (ld_sections st) (ld_symbols st)
                  (seen_segment_names st) (defined_funcs st) (undefined_funcs st)
                  (trace st ++ [e])).

Definition set_segments (f : list (SegClass * Segment) → list (SegClass * Segment)) : M unit :=
  modify (λ st, mkState (f (segments st)) (ld_sections st) (ld_symbols st)
                  (seen_segment_names st) (defined_funcs st) (undefined_funcs st)
                  (trace st)).

Definition set_seen (f : gset string → gset string) : M unit :=
  modify (λ st, mkState (segments st) (ld_sections st) (ld_symbols st)
                  (f (seen_segment_names st)) (defined_funcs st) (undefined_funcs st)
                  (trace st)).

Definition set_funcs (defined undefined : gset string) : M unit :=
  modify (λ st, mkState (segments st) (ld_sections st) (ld_symbols st)
                  (seen_segment_names st) defined undefined (trace st)).

Definition set_ld (sections : list string) (symbols : list (string * Z)) : M unit :=
  modify (λ st, mkState (segments st) sections symbols
                  (seen_segment_names st) (defined_funcs st) (undefined_funcs st)
                  (trace st)).

(** The newest element of [segments] is the object the loop body works on;
    assigning to its attributes changes it where it sits in the list. *)
Definition set_current (cls : SegClass) (seg : Segment) : M unit :=
  set_segments (λ l, (removelast l ++ [(cls, seg)])%list).

(** [d.update(other)] on an [OrderedDict]: a known key keeps its place and
    takes the new value, a new key goes to the end. *)
Fixpoint od_set (d : list (string * Z)) (k : string) (v : Z) : list (string * Z) :=
  match d with
  | [] => [(k, v)]
  | (k', v') :: d' => if String.eqb k' k then (k, v) :: d' else (k', v') :: od_set d' k v
  end.
Definition od_update (d other : list (string * Z)) : list (string * Z) :=
  fold_left (λ acc kv, od_set acc kv.1 kv.2) other d.

Definition final {A} (r : Res A) : State :=
  match r with Ok _ st | Stop _ st => st end.
Definition outcome {A} (r : Res A) : option Outcome :=
  match r with Ok _ _ => None | Stop o _ => Some o end.

Section Engine.

(** The helpers of [segtypes.segment] that read a descriptor, and the
    modules of the package [segtypes] with the classes they define: the
    driver is verified for every choice of them. *)
Variable parse_segment_type : yaml → option string.
Variable parse_segment_start : yaml → option Z.
Variable parse_segment_name : yaml → option string.
Variable segtypes : string → option (string → option SegClass).

Variable rom_bytes : Rom.
Variable repo_path : string.
Variable config : Config.
Variable options : Options.
Variable c_funcs : gmap Z string.
Variable c_func_labels_to_add : gset string.
Variable c_vars : gmap Z string.

(** Modelled from the spec: the constructor of the segment classes
    (segtypes/segment.py is not among the sources).  A segment takes its
    kind, name and start from its own descriptor and its end from the start
    of the next descriptor; nothing is injected yet and no label is
    recorded. *)
Definition new_segment (id : nat) (segment next_segment : yaml) : option Segment :=
  ty ← parse_segment_type segment;
  nm ← parse_segment_name segment;
  start ← parse_segment_start segment;
  stop ← parse_segment_start next_segment;
  Some (mkSegment id ty nm start stop false ∅ ∅).

Definition inject (seg : Segment) : Segment :=
  mkSegment (seg_id seg) (type seg) (name seg) (rom_start seg) (rom_end seg)
    true (glabels_added seg) (glabels_to_add seg).

Definition with_labels (seg : Segment) (eff : SplitEffect) : Segment :=
  mkSegment (seg_id seg) (type seg) (name seg) (rom_start seg) (rom_end seg)
    (injected seg) (eff_glabels_added eff) (eff_glabels_to_add eff).

(** l.202-203: the symbols of a section, appended to its text. *)
Definition with_symbols (ld_section : string) (seg_ld_symbols : list (string * Z)) : string :=
  fold_left (λ acc '(symbol, addr), acc ++ symbol ++ " = 0x" ++ Py.format_X addr ++ ";" ++ NL)
    seg_ld_symbols ld_section.

(** l.166-206: the body of the first loop, for the descriptor at
    position [i]. *)
Definition init_segment (i : nat) (segment : yaml) : M unit :=
  n <~ or_raise "TypeError" (yaml_len segment);;
  if (n =? 1)%nat then ret tt (* We're at the end *) else
  seg_type <~ or_raise "Exception" (parse_segment_type segment);;
  segmodule <~ or_raise "ModuleNotFoundError" (segtypes seg_type);;
  cname <~ or_raise "IndexError" (class_name seg_type);;
  segment_class <~ or_raise "AttributeError" (segmodule cname);;
  next_segment <~ or_raise "IndexError" (config_segments config !! S i);;
  emit (EvNew i);;;
  seg <~ or_raise "Exception" (new_segment i segment next_segment);;
  set_segments (λ l, (l ++ [(segment_class, seg)])%list);;;
  when (require_unique_name segment_class)
    (seen <~ get seen_segment_names;;
     if bool_decide (name seg ∈ seen) then
       emit (EvPrint ("ERROR: Segment name " ++ name seg ++ " is not unique"));;;
       py_exit 1
     else set_seen (λ s, s ∪ {[name seg]}));;;
  let seg := if is_N64SegCode segment_class then inject seg else seg in
  set_current segment_class seg;;;
  when (verbose options)
    (emit (EvPrint ("Splitting " ++ type seg ++ " " ++ name seg ++ " at 0x"
                     ++ Py.format_X (rom_start seg))));;;
  emit (EvCheck i);;;
  (if check segment_class seg then ret tt else raise "Exception");;;
  defined <~ get defined_funcs;;
  undefined <~ get undefined_funcs;;
  let shared :=
    if injected seg
    then Some (mkShared defined c_funcs c_vars c_func_labels_to_add)
    else None in
  emit (EvSplit i);;;
  eff <~ or_raise "Exception" (split segment_class seg shared rom_bytes repo_path);;
  let seg := with_labels seg eff in
  set_current segment_class seg;;;
  (* the set behind [all_functions] is [defined_funcs] itself *)
  let defined := if injected seg then eff_all_functions eff else defined in
  (if is_N64SegCode segment_class
   then set_funcs (defined ∪ glabels_added seg) (undefined ∪ glabels_to_add seg)
   else set_funcs defined undefined);;;
  emit (EvGetLdSection i);;;
  let '(ld_section, seg_ld_symbols) := get_ld_section segment_class seg in
  let ld_section := with_symbols ld_section seg_ld_symbols in
  sections <~ get ld_sections;;
  symbols <~ get ld_symbols;;
  set_ld (sections ++ [ld_section])%list (od_update symbols seg_ld_symbols).

(** l.165: [for i, segment in enumerate(config['segments'])], from
    position [i] on. *)
Fixpoint init_segments (i : nat) (rest : list yaml) : M unit :=
  match rest with
  | [] => ret tt
  | segment :: rest' => init_segment i segment;;; init_segments (S i) rest'
  end.

(** l.208-209: the second loop, over the objects left to visit; every call
    receives the list [segments] itself. *)
Fixpoint postsplit_all (todo : list (SegClass * Segment)) : M unit :=
  match todo with
  | [] => ret tt
  | (cls, seg) :: todo' =>
      all_segments <~ get segments;;
      emit (EvPostsplit (seg_id seg) (map (λ o, seg_id o.2) all_segments));;;
      (if postsplit cls seg (map snd all_segments) then ret tt else raise "Exception");;;
      postsplit_all todo'
  end.

(** l.211-216 *)
Definition write_ld : M unit :=
  when (mode_in "ld" (modes options) || mode_in "all" (modes options))
    (rom_name <~ or_raise "KeyError" (basename config);;
     sections <~ get ld_sections;;
     let '(path, text) := write_ldscript rom_name repo_path sections in
     emit (EvWrite path text);;;
     match ld_addrs_header options with
     | Some h_path =>
         symbols <~ get ld_symbols;;
         let '(path, text) := write_ld_addrs_h repo_path h_path symbols in
         emit (EvWrite path text)
     | None => ret tt
     end).

(** l.218-224 *)
Definition write_undefined_funcs : M unit :=
  undefined <~ get undefined_funcs;;
  defined <~ get defined_funcs;;
  match undefined_funcs_txt repo_path undefined defined c_funcs with
  | Some (path, text) => emit (EvWrite path text)
  | None => ret tt
  end.

(** l.164-224: [main] once the symbol tables are gathered. *)
Definition run : M unit :=
  init_segments 0 (config_segments config);;;
  all_segments <~ get segments;;
  postsplit_all all_segments;;;
  write_ld;;;
  write_undefined_funcs.

(** *** Reading a run

    Names for what the loop body goes through, used to state what a run
    does. *)

Local Open Scope list_scope.

(** The class that l.170-173 find for a descriptor. *)
Definition segment_class_of (segment : yaml) : option SegClass :=
  seg_type ← parse_segment_type segment;
  segmodule ← segtypes seg_type;
  cname ← class_name seg_type;
  segmodule cname.

(** The class and the fresh object of the descriptor at position [i]. *)
Definition construct (i : nat) (segment : yaml) : option (SegClass * Segment) :=
  cls ← segment_class_of segment;
  next_segment ← config_segments config !! S i;
  seg ← new_segment i segment next_segment;
  Some (cls, seg).

(** The object as [check] and [split] see it. *)
Definition prepared (cls : SegClass) (seg : Segment) : Segment :=
  if is_N64SegCode cls then inject seg else seg.

Definition announce (seg : Segment) : list Event :=
  if verbose options
  then [EvPrint ("Splitting " ++ type seg ++ " " ++ name seg ++ " at 0x"
                 ++ Py.format_X (rom_start seg))%string]
  else [].

Definition seen_after (cls : SegClass) (seg : Segment) (seen : gset string) : gset string :=
  if require_unique_name cls then seen ∪ {[name seg]} else seen.

Definition shared_for (seg : Segment) (st : State) : option Shared :=
  if injected seg
  then Some (mkShared (defined_funcs st) c_funcs c_vars c_func_labels_to_add)
  else None.

(** What one pass through the loop body does, case by case. *)
Inductive step_spec (i : nat) (segment : yaml) (st : State) : Res unit → Prop :=
| step_bad_len :
    yaml_len segment = None →
    step_spec i segment st (Stop (Raised "TypeError") st)
| step_sentinel :
    yaml_len segment = Some 1%nat →
    step_spec i segment st (Ok tt st)
| step_unbuilt n exn evs st' :
    yaml_len segment = Some n → n ≠ 1%nat →
    construct i segment = None →
    evs = [] ∨ evs = [EvNew i] →
    st' = mkState (segments st) (ld_sections st) (ld_symbols st)
            (seen_segment_names st) (defined_funcs st) (undefined_funcs st)
            (trace st ++ evs) →
    step_spec i segment st (Stop (Raised exn) st')
| step_duplicate n cls seg st' :
    yaml_len segment = Some n → n ≠ 1%nat →
    construct i segment = Some (cls, seg) →
    require_unique_name cls = true →
    name seg ∈ seen_segment_names st →
    st' = mkState (segments st ++ [(cls, seg)]) (ld_sections st) (ld_symbols st)
            (seen_segment_names st) (defined_funcs st) (undefined_funcs st)
            (trace st ++ [EvNew i;
               EvPrint ("ERROR: Segment name " ++ name seg ++ " is not unique")%string]) →
    step_spec i segment st (Stop (Exited 1) st')
| step_failed n cls seg evs st' :
    yaml_len segment = Some n → n ≠ 1%nat →
    construct i segment = Some (cls, seg) →
    (require_unique_name cls = true → name seg ∉ seen_segment_names st) →
    (check cls (prepared cls seg) = false ∧ evs = [EvCheck i]
     ∨ check cls (prepared cls seg) = true
       ∧ split cls (prepared cls seg) (shared_for (prepared cls seg) st)
           rom_bytes repo_path = None
       ∧ evs = [EvCheck i; EvSplit i]) →
    st' = mkState (segments st ++ [(cls, prepared cls seg)])
            (ld_sections st) (ld_symbols st)
            (seen_after cls seg (seen_segment_names st))
            (defined_funcs st) (undefined_funcs st)
            (trace st ++ EvNew i :: announce (prepared cls seg) ++ evs) →
    step_spec i segment st (Stop (Raised "Exception") st')
| step_done n cls seg eff st' :
    yaml_len segment = Some n → n ≠ 1%nat →
    construct i segment = Some (cls, seg) →
    (require_unique_name cls = true → name seg ∉ seen_segment_names st) →
    check cls (prepared cls seg) = true →
    split cls (prepared cls seg) (shared_for (prepared cls seg) st)
      rom_bytes repo_path = Some eff →
    let seg' := with_labels (prepared cls seg) eff in
    let defined := if injected seg' then eff_all_functions eff else defined_funcs st in
    st' = mkState (segments st ++ [(cls, seg')])
            (ld_sections st
             ++ [with_symbols (get_ld_section cls seg').1 (get_ld_section cls seg').2])
            (od_update (ld_symbols st) (get_ld_section cls seg').2)
            (seen_after cls seg (seen_segment_names st))
            (if is_N64SegCode cls then defined ∪ glabels_added seg' else defined)
            (if is_N64SegCode cls
             then undefined_funcs st ∪ glabels_to_add seg' else undefined_funcs st)
            (trace st ++ EvNew i :: announce (prepared cls seg)
               ++ [EvCheck i; EvSplit i; EvGetLdSection i]) →
    step_spec i segment st (Ok tt st').

(** Events of the first loop for the descriptors at the positions from
    [lo] up to [hi]. *)
Definition loop_event (lo hi : nat) (e : Event) : Prop :=
  match e with
  | EvNew k | EvCheck k | EvSplit k | EvGetLdSection k => (lo ≤ k < hi)%nat
  | EvPrint _ => True
  | EvPostsplit _ _ | EvWrite _ _ => False
  end.

(** An object built from the descriptor [d] at position [i]: its range
    runs from the start of [d] to the start of the next descriptor. *)
Definition built_at (i : nat) (d : yaml) (o : SegClass * Segment) : Prop :=
  seg_id o.2 = i
  ∧ yaml_len d ≠ Some 1%nat
  ∧ (∃ next_segment,
       config_segments config !! S i = Some next_segment
       ∧ parse_segment_start d = Some (rom_start o.2)
       ∧ parse_segment_start next_segment = Some (rom_end o.2))
  ∧ (injected o.2 = true → is_N64SegCode o.1 = true).

(** The positions, from [i] on, of the descriptors that are not
    single-field entries. *)
Fixpoint descriptor_positions (i : nat) (rest : list yaml) : list nat :=
  match rest with
  | [] => []
  | d :: rest' =>
      (if decide (yaml_len d = Some 1%nat) then [] else [i])
      ++ descriptor_positions (S i) rest'
  end.

Definition with_trace (st : State) (tr : list Event) : State :=
  mkState (segments st) (ld_sections st) (ld_symbols st) (seen_segment_names st)
    (defined_funcs st) (undefined_funcs st) tr.

Definition is_write (e : Event) : Prop :=
  match e with EvWrite _ _ => True | _ => False end.

(** l.208-224: what follows the first loop. *)
Definition finish : M unit :=
  all_segments <~ get segments;;
  postsplit_all all_segments;;;
  write_ld;;;
  write_undefined_funcs.

(** The text that l.200-205 append to [ld_sections] for an object. *)
Definition fragment (o : SegClass * Segment) : string :=
  with_symbols (get_ld_section o.1 o.2).1 (get_ld_section o.1 o.2).2.

(** The calls of one completed pass through the body, in their order. *)
Definition segment_events (o : SegClass * Segment) : list Event :=
  EvNew (seg_id o.2)
  :: announce o.2
  ++ [EvCheck (seg_id o.2); EvSplit (seg_id o.2); EvGetLdSection (seg_id o.2)].

(** The labels that the code segments ask for. *)
Definition required_by (segs : list (SegClass * Segment)) : gset string :=
  ⋃ map (λ o, if is_N64SegCode o.1 then glabels_to_add o.2 else ∅) segs.

(** The names of the segments whose class requires a unique name. *)
Definition unique_names (segs : list (SegClass * Segment)) : list string :=
  map (λ o, name o.2) (filter (λ o, require_unique_name o.1 = true) segs).

(** l.211-216: the linker script and the address header, as events. *)
Definition ld_files (st : State) : list Event :=
  if mode_in "ld" (modes options) || mode_in "all" (modes options) then
    match basename config with
    | Some rom_name =>
        EvWrite (write_ldscript rom_name repo_path (ld_sections st)).1
          (write_ldscript rom_name repo_path (ld_sections st)).2
        :: match ld_addrs_header options with
           | Some h_path =>
               [EvWrite (write_ld_addrs_h repo_path h_path (ld_symbols st)).1
                  (write_ld_addrs_h repo_path h_path (ld_symbols st)).2]
           | None => []
           end
    | None => []
    end
  else [].

(** l.218-224: the report, as an event. *)
Definition report_file (st : State) : list Event :=
  match undefined_funcs_txt repo_path (undefined_funcs st) (defined_funcs st) c_funcs with
  | Some (path, text) => [EvWrite path text]
  | None => []
  end.

End Engine.

(** The four symbol sources of the output directory. *)
Record Sources : Type := mkSources {
  functions_h : option string;
  symbol_addrs_txt : option string;
  variables_h : option string;
  undefined_syms_txt : option string
}.

(** split.py, [main]. *)
Definition main (parse_segment_type : yaml → option string)
    (parse_segment_start : yaml → option Z)
    (parse_segment_name : yaml → option string)
    (segtypes : string → option (string → option SegClass))
    (rom_bytes : Rom) (config : Config) (repo_path : string) (sources : Sources)
    (modes : Modes) (verbose : bool) : Res unit :=
  match config_options config with
  | None => Stop (Raised "TypeError") init_state
  | Some header =>
      let options := mkOptions modes verbose header in
      match gather_c_funcs (functions_h sources) (symbol_addrs_txt sources) with
      | None => Stop (Raised "Exception") init_state
      | Some (c_funcs, c_func_labels_to_add) =>
          match gather_c_variables (variables_h sources) (undefined_syms_txt sources) with
          | None => Stop (Raised "Exception") init_state
          | Some c_vars =>
              run parse_segment_type parse_segment_start parse_segment_name segtypes
                rom_bytes repo_path config options c_funcs c_func_labels_to_add c_vars
                init_state
          end
      end
  end.


(** ** A small installation used in the examples *)

Module Demo.

(** Descriptors written as sequences [[start, kind, name, ...]]. *)
Definition parse_segment_type (segment : yaml) : option string :=
  match segment with
  | YSeq (_ :: YStr ty :: _) => Some ty
  | _ => None
  end.

Definition parse_segment_start (segment : yaml) : option Z :=
  match parse_file_start segment with
  | Some (YInt z) => Some z
  | _ => None
  end.

Definition parse_segment_name (segment : yaml) : option string :=
  match segment with
  | YSeq (_ :: _ :: YStr nm :: _) => Some nm
  | _ => None
  end.

(** A kind of raw data: nothing to check, nothing reported. *)
Definition N64SegBin : SegClass :=
  mkSegClass "segtypes.bin.N64SegBin" false
    (λ _, true)
    (λ _ _ _ _, Some (mkSplitEffect ∅ ∅ ∅))
    (λ seg, (name seg, []))
    (λ _ _, true).

(** The kind of code: names are unique; splitting defines the function
    named after the segment and asks for [func_80001000]. *)
Definition N64SegCode : SegClass :=
  mkSegClass "segtypes.code.N64SegCode" true
    (λ _, true)
    (λ seg shared _ _,
       Some (mkSplitEffect {[name seg]} {["func_80001000"]}
               (from_option all_functions ∅ shared)))
    (λ seg, (name seg, [(name seg ++ "_ROM_START", rom_start seg)]))
    (λ _ _, true).

Definition segtypes (module : string) : option (string → option SegClass) :=
  if String.eqb module "bin" then
    Some (λ attr, if String.eqb attr "N64SegBin" then Some N64SegBin else None)
  else if String.eqb module "code" then
    Some (λ attr, if String.eqb attr "N64SegCode" then Some N64SegCode else None)
  else None.

Definition descriptor (start : Z) (kind nm : string) : yaml :=
  YSeq [YInt start; YStr kind; YStr nm].
Definition sentinel (start : Z) : yaml := YSeq [YInt start].

Definition no_sources : Sources := mkSources None None None None.

Definition main := main parse_segment_type parse_segment_start parse_segment_name segtypes.

(** Starts [0x1000], [0x2000] and the closing entry [0x3000]. *)
Definition three_descriptors : Config :=
  mkConfig (Some "rom") (Some None)
    [descriptor 0x1000 "bin" "a"; descriptor 0x2000 "bin" "b"; sentinel 0x3000].

(** Two code segments named [main]. *)
Definition two_mains : Config :=
  mkConfig (Some "rom") (Some None)
    [descriptor 0x1000 "code" "main"; descriptor 0x2000 "code" "main"; sentinel 0x3000].

(** Raw data followed by code. *)
Definition bin_then_code : Config :=
  mkConfig (Some "rom") (Some None)
    [descriptor 0x1000 "bin" "a"; descriptor 0x2000 "code" "main"; sentinel 0x3000].

Definition default_options : Options := mkOptions (ModesStr "all") false None.

(** The modes given as a list, with the announcements and the address
    header. *)
Definition header_options : Options :=
  mkOptions (ModesList ["ld"]) true (Some "include/ld_addrs.h").



End Demo.


(** *** Reading the lines

    The words of the specification, read off a line: the address-comment token is
    the second blank-separated token of a declaration line, its eleventh
    character may be the flag, and the name is cut from the fifth token. *)

Definition addr_comment_token (line : string) : option string :=
  Py.split " " (Py.strip line) !! 1%nat.

Definition declared_name (line : string) : option string :=
  tok ← Py.split " " (Py.strip line) !! 4%nat;
  Some (Py.slice_to tok (Py.find "(" tok)).

(** A declaration line whose address-comment token carries the flag as its
    eleventh character. *)
Definition flagged_declaration (line : string) : bool :=
  Py.startswith line "/* 0x"
  && match addr_comment_token line with
     | Some tok => bool_decide (String.get 10 tok = Some Py.flag)
     | None => false
     end.

(** The name field of a line of the manual list. *)
Definition manual_name_field (line : string) : option string :=
  Py.split ";" (Py.strip line) !! 0%nat.

(** A line of [undefined_syms.txt] that holds no entry: blank, or a [//]
    comment, once the surrounding white space is stripped. *)
Definition skipped (line : string) : bool :=
  String.eqb (Py.strip line) "" || Py.startswith (Py.strip line) "//".

(** A line read as an entry [name = address;]. *)
Definition undefined_syms_entry (vars : gmap Z string) (line : string)
  : option (gmap Z string) :=
  let line_split := Py.split "=" (Py.strip line) in
  name ← Py.strip <$> line_split !! 0%nat;
  field ← line_split !! 1%nat;
  addr ← Py.int0 (Py.slice_to (Py.strip field) (-1));
  Some (<[addr := name]> vars).

(** *** Reading the linker script *)

(** The lines of the fragments, one after the other; without any fragment
    the script holds one empty line between the braces. *)
Definition fragment_lines (sections : list string) : list string :=
  match sections with
  | [] => [EmptyString]
  | _ => concat (map (Py.split Py.LF) sections)
  end.

(** Every line but the first one gets the indentation. *)
Definition indent_rest (lines : list string) : list string :=
  match lines with
  | [] => []
  | l :: ls => l :: map (String.append INDENT) ls
  end.

(** A declaration line of [functions.h] or [variables.h] (l.73, l.113). *)
Definition is_declaration (line : string) : bool := Py.startswith line "/* 0x".

(** * Properties *)

(** ** The linker script *)

Lemma join_cons sep x y l :
  Py.join sep (x :: y :: l) = x ++ sep ++ Py.join sep (y :: l).
Proof. reflexivity. Qed.

(** The text starts with the two header lines, immediately followed by the
    first fragment, and ends with a closing brace on a line of its own. *)
Lemma ldscript_text_first s sections :
  ldscript_text (s :: sections)
  = "SECTIONS" ++ NL ++ "{" ++ NL
    ++ Py.join (NL ++ INDENT) (map (Py.replace Py.LF (NL ++ INDENT)) (s :: sections))
    ++ NL ++ "}" ++ NL.
Proof. reflexivity. Qed.

(** C2: for the fragments ["A"] and ["B"] the script written is
    [SECTIONS\n{\nA\n    B\n}\n]: the first fragment follows the opening
    brace without the four spaces that the later fragment gets, so the text
    is not [SECTIONS\n{\n    A\n    B\n}\n]. *)
Theorem ldscript_first_fragment_not_indented :
  write_ldscript "rom" "out" ["A"; "B"]
  = ("out/rom.ld", "SECTIONS" ++ NL ++ "{" ++ NL ++ "A" ++ NL ++ "    B" ++ NL ++ "}" ++ NL)
  ∧ ldscript_text ["A"; "B"]
    ≠ "SECTIONS" ++ NL ++ "{" ++ NL ++ "    A" ++ NL ++ "    B" ++ NL ++ "}" ++ NL.
Proof. split; [reflexivity | discriminate]. Qed.

(** ** The symbol tables *)

Lemma get_Some_lt (s : string) (n : nat) (c : ascii) :
  String.get n s = Some c → (n < String.length s)%nat.
Proof.
  revert n. induction s as [|a s IH]; intros [|n] H; simpl in *; try discriminate.
  - lia.
  - apply IH in H. lia.
Qed.

Lemma substring_all (s : string) : String.substring 0 (String.length s) s = s.
Proof. induction s as [|a s IH]; simpl; [done | by rewrite IH]. Qed.

(** Dropping the flag character that a string starts with. *)
Lemma slice_from_flag (s : string) :
  Py.startswith s "!" = true → s = String "!" (Py.slice_from s 1).
Proof.
  destruct s as [|a s]; [done |].
  unfold Py.startswith. intros H%String.prefix_correct.
  simpl in H. assert (a = "!"%char) as -> by (destruct s; simpl in H; congruence).
  f_equal.
  unfold Py.slice_from, Py.clamp, Py.len. simpl String.length.
  replace (Z.to_nat _) with 1%nat by (simpl; lia).
  simpl. rewrite Nat.sub_0_r. by rewrite substring_all.
Qed.

Lemma slice_from_flag_cons (s : string) : Py.slice_from (String "!" s) 1 = s.
Proof.
  unfold Py.slice_from, Py.clamp, Py.len. simpl String.length.
  replace (Z.to_nat _) with 1%nat by (simpl; lia).
  simpl. rewrite Nat.sub_0_r. apply substring_all.
Qed.

Lemma symbol_addrs_line_over f0 l0 f1 l1 f2 l2 line :
  symbol_addrs_line (f1, l1) line = Some (f2, l2) →
  symbol_addrs_line (f1 ∪ f0, l1 ∪ l0) line = Some (f2 ∪ f0, l2 ∪ l0).
Proof.
  unfold symbol_addrs_line.
  destruct (Py.split ";" (Py.strip line) !! 0%nat) as [name|]; [|done]. cbn.
  destruct (Py.startswith name "!");
    (destruct (Py.split ";" (Py.strip line) !! 1%nat) as [field|]; [|done]); cbn;
    (destruct (Py.int0 field) as [addr|]; [|done]); cbn;
    intros ?; simplify_eq; rewrite insert_union_l; do 2 f_equal; set_solver.
Qed.

(** The manual list on top of a table [f0] and a set [l0] gives what it
    gives on its own, laid over [f0] and joined with [l0]. *)
Lemma symbol_addrs_over f0 l0 lines : ∀ f1 l1 f2 l2,
  for_lines symbol_addrs_line (f1, l1) lines = Some (f2, l2) →
  for_lines symbol_addrs_line (f1 ∪ f0, l1 ∪ l0) lines = Some (f2 ∪ f0, l2 ∪ l0).
Proof.
  induction lines as [|line lines IH]; intros f1 l1 f2 l2 H; cbn [for_lines] in *.
  - by simplify_eq.
  - destruct (symbol_addrs_line (f1, l1) line) as [[f1' l1']|] eqn:Hstep; [|done].
    rewrite (symbol_addrs_line_over f0 l0 _ _ _ _ _ Hstep). by apply IH.
Qed.

(** C4: the entries of the manual list are applied after the harvested
    declarations.  When the declarations alone give the table [fa] and the
    manual list alone gives [fm], both together give [fm] laid over [fa]:
    at an address present in both, the merged table holds the manual name. *)
Theorem gather_c_funcs_manual_wins (functions_h symbol_addrs : option string)
    (fa fm : gmap Z string) (la lm : gset string) :
  gather_c_funcs functions_h None = Some (fa, la) →
  gather_c_funcs None symbol_addrs = Some (fm, lm) →
  gather_c_funcs functions_h symbol_addrs = Some (fm ∪ fa, lm ∪ la)
  ∧ ∀ addr name, fm !! addr = Some name → (fm ∪ fa) !! addr = Some name.
Proof.
  unfold gather_c_funcs. simpl. intros Ha Hm. split.
  - destruct (for_lines functions_h_line (∅, ∅) (lines_of functions_h))
      as [[fa' la']|]; simplify_eq/=.
    apply (symbol_addrs_over fa la) in Hm.
    by rewrite !(left_id_L ∅ (∪)) in Hm.
  - intros addr name H. by apply lookup_union_Some_l.
Qed.

(** The auto table [{0x1000: "a"}] and the manual table [{0x1000: "b"}]. *)
Lemma gather_c_funcs_manual_wins_example :
  gather_c_funcs (Some ("/* 0x00001000 */ void a(void);" ++ NL)) None
    = Some ({[ 0x1000 := "a" ]}, ∅)
  ∧ gather_c_funcs None (Some ("b;0x1000;" ++ NL)) = Some ({[ 0x1000 := "b" ]}, ∅)
  ∧ gather_c_funcs (Some ("/* 0x00001000 */ void a(void);" ++ NL))
      (Some ("b;0x1000;" ++ NL))
    = Some ({[ 0x1000 := "b" ]} ∪ {[ 0x1000 := "a" ]}, ∅ ∪ ∅)
  ∧ (({[ 0x1000 := "b" ]} ∪ {[ 0x1000 := "a" ]}) : gmap Z string) !! 0x1000 = Some "b".
Proof.
  assert (Ha : gather_c_funcs (Some ("/* 0x00001000 */ void a(void);" ++ NL)) None
               = Some ({[ 0x1000 := "a" ]}, ∅)) by (vm_compute; reflexivity).
  assert (Hm : gather_c_funcs None (Some ("b;0x1000;" ++ NL))
               = Some ({[ 0x1000 := "b" ]}, ∅)) by (vm_compute; reflexivity).
  destruct (gather_c_funcs_manual_wins _ _ _ _ _ _ Ha Hm) as [Hboth Hwins].
  split; [exact Ha | split; [exact Hm | split; [exact Hboth |]]].
  apply Hwins. vm_compute; reflexivity.
Defined.

Lemma flag_test (tok : string) :
  (10 <? Py.len tok) && bool_decide (Py.index tok 10 = Some Py.flag)
  = bool_decide (String.get 10 tok = Some Py.flag).
Proof.
  unfold Py.index. destruct (bool_decide _) eqn:Hd; [|by rewrite andb_false_r].
  apply bool_decide_eq_true in Hd. apply get_Some_lt in Hd.
  rewrite andb_true_r. apply Z.ltb_lt. unfold Py.len. lia.
Qed.

Lemma functions_h_labels lines : ∀ f0 l0 f l,
  for_lines functions_h_line (f0, l0) lines = Some (f, l) →
  ∀ name, name ∈ l ↔
    name ∈ l0 ∨ ∃ line, line ∈ lines ∧ flagged_declaration line = true
                        ∧ declared_name line = Some name.
Proof.
  induction lines as [|line lines IH]; intros f0 l0 f l H name; cbn [for_lines] in H.
  - simplify_eq. split; [by left | intros [?|(line & Hin & _)]; [done|]].
    by apply elem_of_nil in Hin.
  - destruct (functions_h_line (f0, l0) line) as [[f1 l1]|] eqn:Hstep; [|done].
    rewrite (IH _ _ _ _ H name). clear IH H.
    assert (name ∈ l1 ↔ name ∈ l0 ∨ (flagged_declaration line = true
                                      ∧ declared_name line = Some name)) as ->.
    { unfold functions_h_line, flagged_declaration, declared_name,
        addr_comment_token in *.
      destruct (Py.startswith line "/* 0x"); cbn in *.
      2:{ simplify_eq. naive_solver. }
      destruct (Py.split " " (Py.strip line) !! 1%nat) as [tok|]; [|done]. cbn in *.
      destruct (Py.int0 _); [|done]. cbn in *.
      destruct (Py.split " " (Py.strip line) !! 4%nat) as [tok4|]; [|done]. cbn in *.
      rewrite flag_test in Hstep.
      destruct (bool_decide (String.get 10 tok = Some Py.flag)); simplify_eq.
      - rewrite elem_of_union, elem_of_singleton. naive_solver.
      - naive_solver. }
    setoid_rewrite elem_of_cons. naive_solver.
Qed.

Lemma symbol_addrs_labels lines : ∀ f0 l0 f l,
  for_lines symbol_addrs_line (f0, l0) lines = Some (f, l) →
  ∀ name, name ∈ l ↔
    name ∈ l0 ∨ ∃ line, line ∈ lines
                        ∧ manual_name_field line = Some (String Py.flag name).
Proof.
  induction lines as [|line lines IH]; intros f0 l0 f l H name; cbn [for_lines] in H.
  - simplify_eq. split; [by left | intros [?|(line & Hin & _)]; [done|]].
    by apply elem_of_nil in Hin.
  - destruct (symbol_addrs_line (f0, l0) line) as [[f1 l1]|] eqn:Hstep; [|done].
    rewrite (IH _ _ _ _ H name). clear IH H.
    assert (name ∈ l1 ↔ name ∈ l0
                        ∨ manual_name_field line = Some (String Py.flag name)) as ->.
    { unfold symbol_addrs_line, manual_name_field in *.
      destruct (Py.split ";" (Py.strip line) !! 0%nat) as [field0|]; [|done]. cbn in *.
      destruct (Py.startswith field0 "!") eqn:Hflag.
      - apply slice_from_flag in Hflag.
        destruct (Py.split ";" (Py.strip line) !! 1%nat); [|done]. cbn in *.
        destruct (Py.int0 _); [|done]. cbn in *. simplify_eq.
        rewrite elem_of_union, elem_of_singleton.
        split; [intros [?| ->]; [by left | right; f_equal; exact Hflag] |].
        intros [?|Heq]; [by left | right].
        injection Heq as ->. symmetry. apply slice_from_flag_cons.
      - destruct (Py.split ";" (Py.strip line) !! 1%nat); [|done]. cbn in *.
        destruct (Py.int0 _); [|done]. cbn in *. simplify_eq.
        split; [by left | intros [?|Heq]; [done|]]. simplify_eq.
        by destruct name; cbv in Hflag. }
    setoid_rewrite elem_of_cons. naive_solver.
Qed.

(** C6: a name is in the explicit-label set exactly when some declaration
    line of the auto source declares it with the flag ['!'] as the eleventh
    character of its address-comment token, or some line of the manual list
    has the flag followed by that name as its name field (the name is kept
    without the flag).  Nothing else enters the set. *)
Theorem explicit_labels_exactly (functions_h symbol_addrs : option string)
    (funcs : gmap Z string) (labels_to_add : gset string) :
  gather_c_funcs functions_h symbol_addrs = Some (funcs, labels_to_add) →
  ∀ name, name ∈ labels_to_add ↔
    (∃ line, line ∈ lines_of functions_h ∧ flagged_declaration line = true
             ∧ declared_name line = Some name)
    ∨ (∃ line, line ∈ lines_of symbol_addrs
               ∧ manual_name_field line = Some (String Py.flag name)).
Proof.
  unfold gather_c_funcs. intros H name.
  destruct (for_lines functions_h_line (∅, ∅) (lines_of functions_h))
    as [[fa la]|] eqn:Ha; [|done]. cbn in H.
  rewrite (symbol_addrs_labels _ _ _ _ _ H name).
  rewrite (functions_h_labels _ _ _ _ _ Ha name).
  set_solver.
Qed.

(** An auto line with the token [0x80001000!] and the manual entry
    [!foo;0x80002000;]: both names are explicit labels. *)
Lemma explicit_labels_example :
  let functions_h := Some ("/* 0x80001000! */ s32 bar(void);" ++ NL) in
  let symbol_addrs := Some ("!foo;0x80002000;" ++ NL) in
  gather_c_funcs functions_h symbol_addrs
    = Some ({[ 0x80001000 := "bar"; 0x80002000 := "foo" ]}, {[ "bar"; "foo" ]})
  ∧ "bar" ∈ ({[ "bar"; "foo" ]} : gset string)
  ∧ "foo" ∈ ({[ "bar"; "foo" ]} : gset string).
Proof.
  intros functions_h symbol_addrs.
  assert (H : gather_c_funcs functions_h symbol_addrs
              = Some ({[ 0x80001000 := "bar"; 0x80002000 := "foo" ]}, {[ "bar"; "foo" ]}))
    by (vm_compute; reflexivity).
  split; [exact H|]. split.
  - apply (explicit_labels_exactly _ _ _ _ H "bar"). left.
    exists ("/* 0x80001000! */ s32 bar(void);" ++ NL).
    split; [apply list_elem_of_here | split; vm_compute; reflexivity].
  - apply (explicit_labels_exactly _ _ _ _ H "foo"). right.
    exists ("!foo;0x80002000;" ++ NL).
    split; [apply list_elem_of_here | vm_compute; reflexivity].
Defined.

(** [int] skips blanks around a literal but not the separators FS to US
    that [str.strip] removes: [int("9\x1c", 0)] raises [ValueError]. *)
Lemma int0_white_space :
  Py.int0 (" 9" ++ NL) = Some 9
  ∧ Py.int0 ("9" ++ String (ascii_of_nat 28) "") = None
  ∧ Py.strip ("9" ++ String (ascii_of_nat 28) "") = "9"
  ∧ undefined_syms_line ∅ ("a = 9" ++ String (ascii_of_nat 28) ";" ++ NL) = None.
Proof. repeat split; vm_compute; reflexivity. Qed.

Lemma undefined_syms_line_cases vars line :
  undefined_syms_line vars line
  = if skipped line then Some vars else undefined_syms_entry vars line.
Proof.
  unfold undefined_syms_line, skipped, undefined_syms_entry.
  rewrite <- negb_orb. by destruct (_ || _).
Qed.

(** C9: in the manual variable list, blank lines and lines beginning with
    [//] are skipped: they add no entry and cannot fail; every other line is
    read as an entry [name = address;].  So [gather_c_variables] on a list
    is the harvest of [variables.h] followed by the entry lines of the list
    alone, each read as an entry. *)
Theorem undefined_syms_skips_blank_and_comments (variables_h : option string)
    (text : string) :
  gather_c_variables variables_h (Some text)
  = (vars ← gather_c_variables variables_h None;
     for_lines undefined_syms_entry vars
       (filter (λ line, skipped line = false) (Py.readlines text)))
  ∧ (∀ vars, for_lines undefined_syms_line vars (Py.readlines text)
             = for_lines undefined_syms_entry vars
                 (filter (λ line, skipped line = false) (Py.readlines text)))
  ∧ (∀ vars line, skipped line = true → undefined_syms_line vars line = Some vars)
  ∧ (∀ vars line, skipped line = false →
       undefined_syms_line vars line = undefined_syms_entry vars line)
  ∧ skipped NL = true ∧ skipped ("// nothing here" ++ NL) = true
  ∧ undefined_syms_line ∅ ("D_80000010 = 0x80000010;" ++ NL)
    = Some {[ 0x80000010 := "D_80000010" ]}
  ∧ gather_c_variables None
      (Some (NL ++ "// nothing here" ++ NL ++ "D_80000010 = 0x80000010;" ++ NL))
    = Some {[ 0x80000010 := "D_80000010" ]}.
Proof.
  assert (Hlines : ∀ lines vars,
            for_lines undefined_syms_line vars lines
            = for_lines undefined_syms_entry vars
                (filter (λ line, skipped line = false) lines)).
  { induction lines as [|line lines IH]; intros vars; [done|].
    cbn [for_lines]. rewrite undefined_syms_line_cases.
    destruct (skipped line) eqn:Hs.
    + rewrite filter_cons_False by (rewrite Hs; done). apply IH.
    + rewrite filter_cons_True by done. cbn [for_lines].
      destruct (undefined_syms_entry vars line); [apply IH | done]. }
  split; [|split; [|split; [|split; [|split; [|split; [|split]]]]]];
    [| | | | vm_compute; reflexivity ..].
  - unfold gather_c_variables. cbn [lines_of for_lines].
    destruct (for_lines variables_h_line ∅ (lines_of variables_h)) as [vars|]; [|done].
    cbn. apply Hlines.
  - apply Hlines.
  - intros vars line Hs. by rewrite undefined_syms_line_cases, Hs.
  - intros vars line Hs. by rewrite undefined_syms_line_cases, Hs.
Qed.

(** ** The report of undefined functions: properties *)

(** No name is an address: taking a set of addresses away from a set of
    names takes nothing away. *)
Lemma minus_int_set_id (names : gset string) (addrs : gset Z) :
  minus_int_set names addrs = names.
Proof.
  unfold minus_int_set. apply set_eq. intros n. rewrite elem_of_filter.
  split; [by intros [_ ?] | intros Hn; split; [|done]].
  rewrite elem_of_map. by intros (z & Heq & _).
Qed.

Lemma sorted_spec (s : gset string) :
  StronglySorted String.le (sorted s) ∧ NoDup (sorted s)
  ∧ ∀ name, name ∈ sorted s ↔ name ∈ s.
Proof.
  unfold sorted. split; [apply StronglySorted_merge_sort; apply _ | split].
  - rewrite merge_sort_Permutation. apply NoDup_elements.
  - intros name. rewrite merge_sort_Permutation. apply elem_of_elements.
Qed.





(** The last step of the driver: the report file, or nothing at all. *)
Lemma write_undefined_funcs_effect (repo_path : string) (c_funcs : gmap Z string)
    (st : State) :
  write_undefined_funcs repo_path c_funcs st
  = Ok tt (with_trace st
             (trace st
              ++ match undefined_funcs_txt repo_path (undefined_funcs st)
                         (defined_funcs st) c_funcs with
                 | Some (path, text) => [EvWrite path text]
                 | None => []
                 end)%list).
Proof.
  unfold write_undefined_funcs, bind, get, emit, modify, ret. cbn.
  destruct (undefined_funcs_txt _ _ _ _) as [[path text]|]; [done|].
  destruct st. unfold with_trace. cbn. by rewrite app_nil_r.
Qed.


(** C3: with [func_80001000] required, not defined, and its address
    [0x80001000] known to the function table, the name is still reported:
    the set taken away holds the addresses of the table, and no name equals
    an address. *)
Theorem known_address_still_reported :
  let c_funcs : gmap Z string := {[ 0x80001000 := "func_80001000" ]} in
  gather_c_funcs (Some ("/* 0x80001000 */ void func_80001000(void);" ++ NL)) None
    = Some (c_funcs, ∅)
  ∧ to_write {[ "func_80001000" ]} ∅ c_funcs = ["func_80001000"]
  ∧ undefined_funcs_txt "out" {[ "func_80001000" ]} ∅ c_funcs
    = Some ("out/undefined_funcs.txt", "func_80001000 = 0x80001000;" ++ NL)
  ∧ last (trace (final
      (Demo.main [] (mkConfig (Some "rom") (Some None)
                       [Demo.descriptor 0x1000 "code" "main"; Demo.sentinel 0x2000])
         "out"
         (mkSources (Some ("/* 0x80001000 */ void func_80001000(void);" ++ NL))
            None None None)
         (ModesStr "all") false)))
    = Some (EvWrite "out/undefined_funcs.txt" ("func_80001000 = 0x80001000;" ++ NL)).
Proof. repeat split; vm_compute; reflexivity. Qed.

(** In general the known addresses play no part in the report. *)
Lemma to_write_ignores_c_funcs undefined defined c_funcs :
  to_write undefined defined c_funcs = sorted (undefined ∖ defined).
Proof. unfold to_write. by rewrite minus_int_set_id. Qed.

(** ** More on the files and the symbol tables *)

Lemma append_cons a s t : String a s ++ t = String a (s ++ t).
Proof. reflexivity. Qed.
Lemma append_nil_l t : "" ++ t = t.
Proof. reflexivity. Qed.

Lemma split_cons c s : ∃ h t, Py.split c s = h :: t.
Proof.
  induction s as [|a s (h & t & IH)]; cbn [Py.split]; [by eauto|].
  destruct (Ascii.eqb a c); [by eauto|]. rewrite IH. eauto.
Qed.

Lemma split_app_sep c a b :
  Py.split c (a ++ String c b) = (Py.split c a ++ Py.split c b)%list.
Proof.
  induction a as [|x a IH].
  - rewrite append_nil_l. cbn [Py.split]. by rewrite Ascii.eqb_refl.
  - rewrite append_cons. cbn [Py.split]. destruct (Ascii.eqb x c); [by rewrite IH|].
    rewrite IH. by destruct (split_cons c a) as (h & t & ->).
Qed.

(** A prefix without the separator stays in front of the first piece. *)
Lemma split_prefix c p s h t :
  Py.find c p = (-1)%Z → Py.split c s = h :: t → Py.split c (p ++ s) = (p ++ h) :: t.
Proof.
  intros Hp Hs. induction p as [|x p IH].
  - by rewrite !append_nil_l.
  - rewrite !append_cons. cbn [Py.split Py.find] in *.
    destruct (Ascii.eqb x c); [done|]. rewrite IH; [done|].
    destruct (Py.find c p <? 0)%Z eqn:Hlt; [|lia].
    (* find never goes below -1 *)
    clear -Hlt. induction p as [|y p IHp]; [done|]. cbn [Py.find] in *.
    destruct (Ascii.eqb y c); [done|]. destruct (Py.find c p <? 0)%Z eqn:H'; [done|].
    apply Z.ltb_lt in Hlt. apply Z.ltb_ge in H'. lia.
Qed.

Lemma split_replace c ind s h t :
  Py.find c ind = (-1)%Z → Py.split c s = h :: t →
  Py.split c (Py.replace c (String c ind) s) = h :: map (String.append ind) t.
Proof.
  intros Hind. revert h t. induction s as [|a s IH]; intros h t Hs; cbn [Py.split Py.replace] in *.
  - by simplify_eq.
  - destruct (Ascii.eqb a c) eqn:Hac.
    + simplify_eq. rewrite append_cons. cbn [Py.split]. rewrite Ascii.eqb_refl.
      destruct (split_cons c s) as (h' & t' & Hs').
      f_equal. rewrite Hs'. cbn [map].
      apply split_prefix; [done|]. by apply IH.
    + destruct (split_cons c s) as (h' & t' & Hs'). rewrite Hs' in Hs. simplify_eq.
      cbn [Py.split]. rewrite Hac. by rewrite (IH _ _ Hs').
Qed.

Lemma indent_rest_app h t l :
  indent_rest ((h :: t) ++ l) = (indent_rest (h :: t) ++ map (String.append INDENT) l)%list.
Proof. cbn. by rewrite map_app. Qed.

Lemma split_join s rest :
  Py.split Py.LF
    (Py.join (NL ++ INDENT) (map (Py.replace Py.LF (NL ++ INDENT)) (s :: rest)))
  = indent_rest (concat (map (Py.split Py.LF) (s :: rest))).
Proof.
  change (NL ++ INDENT) with (String Py.LF INDENT).
  revert s. induction rest as [|y rest IH]; intros s.
  - cbn [map Py.join concat]. rewrite app_nil_r.
    destruct (split_cons Py.LF s) as (h & t & Hs). rewrite Hs.
    by apply (split_replace Py.LF INDENT).
  - cbn [map concat]. rewrite join_cons.
    change (String Py.LF INDENT ++ ?x) with (String Py.LF (INDENT ++ x)).
    rewrite split_app_sep.
    destruct (split_cons Py.LF s) as (h & t & Hs).
    rewrite (split_replace Py.LF INDENT s h t eq_refl Hs), Hs.
    specialize (IH y). cbn [map concat] in IH.
    destruct (split_cons Py.LF y) as (h' & t' & Hy). rewrite Hy in IH |- *.
    rewrite indent_rest_app. cbn [indent_rest]. f_equal. f_equal.
    by rewrite (split_prefix Py.LF INDENT _ _ _ eq_refl IH).
Qed.

(** X1: the lines of the linker script are [SECTIONS], [{], the lines of
    the fragments in order, each but the very first one indented by four
    spaces, then [}]; the text ends with a line feed.  Without fragments
    there is one empty line between the braces. *)
Theorem ldscript_lines (sections : list string) :
  Py.split Py.LF (ldscript_text sections)
  = (["SECTIONS"; "{"] ++ indent_rest (fragment_lines sections) ++ ["}"; ""])%list.
Proof.
  unfold ldscript_text.
  change (("SECTIONS" ++ NL ++ "{" ++ NL) ++ ?x) with ("SECTIONS" ++ String Py.LF ("{" ++ String Py.LF x)).
  rewrite split_app_sep. change (Py.split Py.LF "SECTIONS") with ["SECTIONS"].
  rewrite split_app_sep. change (Py.split Py.LF "{") with ["{"].
  cbn [app]. do 2 f_equal.
  change (?x ++ NL ++ "}" ++ NL) with (x ++ String Py.LF ("}" ++ NL)).
  rewrite split_app_sep. change (Py.split Py.LF ("}" ++ NL)) with ["}"; ""].
  f_equal. destruct sections as [|s rest]; [done|]. apply split_join.
Qed.

(** X2: in [include/functions.h] only the lines that begin with the
    marker of a declaration count: any other line leaves the table and the
    labels as they are and cannot make the gathering fail. *)
Theorem functions_h_other_lines_ignored (lines : list string) (st : FuncState) :
  for_lines functions_h_line st lines
  = for_lines functions_h_line st (filter (λ line, is_declaration line = true) lines)
  ∧ ∀ line, is_declaration line = false → functions_h_line st line = Some st.
Proof.
  split.
  - revert st. induction lines as [|line lines IH]; intros st; [done|].
    cbn [for_lines]. destruct (is_declaration line) eqn:Hd.
    + rewrite filter_cons_True by done. cbn [for_lines].
      destruct (functions_h_line st line); [apply IH | done].
    + rewrite filter_cons_False by (rewrite Hd; done).
      unfold functions_h_line. destruct st as [funcs labels].
      unfold is_declaration in Hd. rewrite Hd. apply IH.
  - intros line Hd. unfold functions_h_line. destruct st as [funcs labels].
    unfold is_declaration in Hd. by rewrite Hd.
Qed.

(** X3: in [include/variables.h] only the lines that begin with the
    marker of a declaration count: any other line leaves the table as it is
    and cannot make the gathering fail. *)
Theorem variables_h_other_lines_ignored (lines : list string) (vars : gmap Z string) :
  for_lines variables_h_line vars lines
  = for_lines variables_h_line vars (filter (λ line, is_declaration line = true) lines)
  ∧ ∀ line, is_declaration line = false → variables_h_line vars line = Some vars.
Proof.
  split.
  - revert vars. induction lines as [|line lines IH]; intros vars; [done|].
    cbn [for_lines]. destruct (is_declaration line) eqn:Hd.
    + rewrite filter_cons_True by done. cbn [for_lines].
      destruct (variables_h_line vars line); [apply IH | done].
    + rewrite filter_cons_False by (rewrite Hd; done).
      unfold variables_h_line. unfold is_declaration in Hd. rewrite Hd. apply IH.
  - intros line Hd. unfold variables_h_line.
    unfold is_declaration in Hd. by rewrite Hd.
Qed.

Lemma find_bounds c s : -1 ≤ Py.find c s.
Proof.
  induction s as [|a s IH]; cbn [Py.find]; [lia|].
  destruct (Ascii.eqb a c); [lia|]. destruct (Py.find c s <? 0) eqn:H; [lia|].
  apply Z.ltb_ge in H. lia.
Qed.

Lemma split_no_sep c s : Py.find c s = -1 → Py.split c s = [s].
Proof.
  induction s as [|a s IH]; cbn [Py.find Py.split]; [done|].
  destruct (Ascii.eqb a c); [done|].
  destruct (Py.find c s <? 0) eqn:H; [|pose proof (find_bounds c s); apply Z.ltb_ge in H; lia].
  intros _. rewrite IH; [done|]. apply Z.ltb_lt in H. pose proof (find_bounds c s). lia.
Qed.

Lemma for_lines_fails {S} (body : S → string → option S) lines line :
  (∀ st, body st line = None) → line ∈ lines → ∀ st, for_lines body st lines = None.
Proof.
  intros Hfail. induction lines as [|l lines IH]; intros Hin st.
  - by apply elem_of_nil in Hin.
  - cbn [for_lines]. apply elem_of_cons in Hin as [<- | Hin]; [by rewrite Hfail|].
    destruct (body st l); [by apply IH | done].
Qed.

(** X4: unlike [undefined_syms.txt], the manual list
    [tools/symbol_addrs.txt] tolerates no line without a semicolon, a blank
    line included: such a line has no address field, the lookup of the
    second field fails, and with it the whole gathering. *)
Theorem symbol_addrs_needs_two_fields (functions_h : option string) (text line : string) :
  line ∈ Py.readlines text →
  Py.find ";" (Py.strip line) = -1 →
  (∀ st, symbol_addrs_line st line = None)
  ∧ gather_c_funcs functions_h (Some text) = None.
Proof.
  intros Hin Hno.
  assert (Hline : ∀ st, symbol_addrs_line st line = None).
  { intros [funcs labels]. unfold symbol_addrs_line. rewrite (split_no_sep _ _ Hno). cbn.
    by destruct (Py.startswith (Py.strip line) "!"). }
  split; [done|]. unfold gather_c_funcs.
  destruct (for_lines functions_h_line _ _) as [st|]; [|done]. cbn.
  by apply (for_lines_fails _ _ line).
Qed.

(** An entry followed by an empty line. *)
Lemma symbol_addrs_needs_two_fields_example :
  gather_c_funcs None (Some ("foo;0x80002000;" ++ NL ++ NL)) = None.
Proof.
  apply (symbol_addrs_needs_two_fields None _ NL).
  - vm_compute. apply list_elem_of_further, list_elem_of_here.
  - reflexivity.
Defined.

Lemma undefined_syms_line_over v0 v1 v2 line :
  undefined_syms_line v1 line = Some v2 →
  undefined_syms_line (v1 ∪ v0) line = Some (v2 ∪ v0).
Proof.
  unfold undefined_syms_line. destruct (_ && _); [|by intros ?; simplify_eq].
  destruct (Py.split "=" (Py.strip line) !! 0%nat) as [f0|]; [|done]. cbn.
  destruct (Py.split "=" (Py.strip line) !! 1%nat) as [f1|]; [|done]. cbn.
  destruct (Py.int0 _) as [addr|]; [|done]. cbn.
  intros ?; simplify_eq. by rewrite insert_union_l.
Qed.

Lemma undefined_syms_over v0 lines : ∀ v1 v2,
  for_lines undefined_syms_line v1 lines = Some v2 →
  for_lines undefined_syms_line (v1 ∪ v0) lines = Some (v2 ∪ v0).
Proof.
  induction lines as [|line lines IH]; intros v1 v2 H; cbn [for_lines] in *.
  - by simplify_eq.
  - destruct (undefined_syms_line v1 line) as [v1'|] eqn:Hstep; [|done].
    rewrite (undefined_syms_line_over v0 _ _ _ Hstep). by apply IH.
Qed.

(** X5: the entries of [undefined_syms.txt] are applied after those of
    [include/variables.h]: the merged table is the manual table laid over
    the harvested one, so at an address present in both the manual name
    stands. *)
Theorem gather_c_variables_manual_wins (variables_h undefined_syms : option string)
    (va vm : gmap Z string) :
  gather_c_variables variables_h None = Some va →
  gather_c_variables None undefined_syms = Some vm →
  gather_c_variables variables_h undefined_syms = Some (vm ∪ va)
  ∧ ∀ addr, (vm ∪ va) !! addr
            = match vm !! addr with Some name => Some name | None => va !! addr end.
Proof.
  unfold gather_c_variables. simpl. intros Ha Hm. split.
  - destruct (for_lines variables_h_line ∅ (lines_of variables_h)) as [va'|]; simplify_eq/=.
    apply (undefined_syms_over va) in Hm. by rewrite (left_id_L ∅ (∪)) in Hm.
  - intros addr. rewrite lookup_union. by destruct (vm !! addr), (va !! addr).
Qed.

(** The address [0x80001000] declared as [arr] and listed as [gArr]. *)
Lemma gather_c_variables_manual_wins_example :
  gather_c_variables (Some ("/* 0x80001000 */ extern s32 arr[4];" ++ NL))
    (Some ("gArr = 0x80001000;" ++ NL))
  = Some ({[ 0x80001000 := "gArr" ]} ∪ {[ 0x80001000 := "arr" ]}).
Proof.
  apply gather_c_variables_manual_wins; vm_compute; reflexivity.
Defined.

Lemma length_append_one name c rest :
  String.length (name ++ String c rest) = S (String.length name + String.length rest).
Proof. induction name as [|a name IH]; [done|]. rewrite append_cons. cbn. by rewrite IH. Qed.

Lemma substring_prefix name x :
  String.substring 0 (String.length name) (name ++ x) = name.
Proof.
  induction name as [|a name IH]; [by destruct x|]. rewrite append_cons. cbn. by rewrite IH.
Qed.

(** [s[:k]] for a bound inside the string. *)
Lemma slice_to_inside name x :
  Py.slice_to (name ++ x) (Z.of_nat (String.length name)) = name.
Proof.
  unfold Py.slice_to, Py.slice, Py.clamp, Py.len.
  assert (String.length name ≤ String.length (name ++ x))%nat as Hle.
  { induction name as [|a name IH]; cbn; [lia|]. rewrite append_cons. cbn. lia. }
  destruct (Z.ltb_spec0 (Z.of_nat (String.length name)) 0) as [|_]; [lia|].
  cbn [Z.ltb Z.compare].
  replace (Z.to_nat (Z.min (Z.max 0 0) _)) with 0%nat by lia.
  replace (Z.to_nat (Z.min (Z.max (Z.of_nat (String.length name)) 0) _))
    with (String.length name) by lia.
  rewrite Nat.sub_0_r. apply substring_prefix.
Qed.

(** [s[:-1]] drops the last character. *)
Lemma slice_to_minus_one name c : Py.slice_to (name ++ String c "") (-1) = name.
Proof.
  unfold Py.slice_to, Py.slice, Py.clamp, Py.len. cbn [Z.ltb Z.compare].
  rewrite length_append_one. cbn [String.length].
  replace (Z.to_nat (Z.min (Z.max 0 0) _)) with 0%nat by lia.
  replace (Z.to_nat (Z.min (Z.max (-1 + _) 0) _)) with (String.length name) by lia.
  rewrite Nat.sub_0_r. apply substring_prefix.
Qed.

Lemma find_first c name rest :
  Py.find c name = -1 → Py.find c (name ++ String c rest) = Z.of_nat (String.length name).
Proof.
  induction name as [|a name IH]; cbn [Py.find].
  - intros _. rewrite append_nil_l. cbn [Py.find]. by rewrite Ascii.eqb_refl.
  - rewrite append_cons. cbn [Py.find]. destruct (Ascii.eqb a c); [done|].
    pose proof (find_bounds c name) as Hb.
    destruct (Py.find c name <? 0) eqn:H; [|apply Z.ltb_ge in H; lia].
    apply Z.ltb_lt in H. intros _. rewrite IH by lia. cbn [String.length].
    destruct (Z.ltb_spec0 (Z.of_nat (String.length name)) 0); lia.
Qed.

Lemma search_name_end_first name c rest :
  search_name_end name = None → name_end c = true →
  search_name_end (name ++ String c rest) = Some (Z.of_nat (String.length name)).
Proof.
  induction name as [|a name IH]; cbn [search_name_end].
  - intros _ Hc. rewrite append_nil_l. cbn [search_name_end]. by rewrite Hc.
  - rewrite append_cons. cbn [search_name_end]. destruct (name_end a); [done|].
    destruct (search_name_end name); [done|]. intros _ Hc. rewrite IH by done.
    cbn. f_equal. lia.
Qed.

(** X7: the name taken from a declaration line of [variables.h] is the
    part of its last token before the first backslash, opening bracket or
    semicolon; a last token with none of the three makes the line fail. *)
Theorem variables_h_name (vars : gmap Z string) (line tok : string) :
  is_declaration line = true →
  last (Py.split " " (Py.strip line)) = Some tok →
  (search_name_end tok = None → variables_h_line vars line = None)
  ∧ (∀ addr_comment addr name c rest,
       Py.split " " (Py.strip line) !! 1%nat = Some addr_comment →
       Py.int0 addr_comment = Some addr →
       tok = name ++ String c rest → search_name_end name = None → name_end c = true →
       variables_h_line vars line = Some (<[addr := name]> vars)).
Proof.
  unfold is_declaration, variables_h_line. intros -> Htok. rewrite Htok. split.
  - intros Hnone. destruct (_ !! 1%nat); [|done]. cbn.
    destruct (Py.int0 _); [|done]. cbn. by rewrite Hnone.
  - intros ac addr name c rest Hac Haddr -> Hname Hc. rewrite Hac. cbn.
    rewrite Haddr. cbn. rewrite (search_name_end_first _ _ _ Hname Hc). cbn.
    by rewrite slice_to_inside.
Qed.

(** [extern s32 arr[4];] declares [arr]. *)
Lemma variables_h_name_example :
  variables_h_line ∅ ("/* 0x80001000 */ extern s32 arr[4];" ++ NL)
  = Some {[ 0x80001000 := "arr" ]}.
Proof.
  destruct (variables_h_name ∅ ("/* 0x80001000 */ extern s32 arr[4];" ++ NL) "arr[4];")
    as [_ H]; [reflexivity | reflexivity |].
  apply (H "0x80001000" 0x80001000 "arr" "["%char "4];"); reflexivity.
Defined.

(** X6: the name taken from a declaration line of [functions.h] is the
    part of its fifth token before the first opening parenthesis; when the
    token has no parenthesis, the name is the token without its last
    character.  The entry goes under the address read from the first ten
    characters of the second token, and the name joins the labels when the
    eleventh character is the flag. *)
Theorem functions_h_name (funcs : gmap Z string) (labels : gset string)
    (line addr_comment tok : string) (addr : Z) :
  is_declaration line = true →
  Py.split " " (Py.strip line) !! 1%nat = Some addr_comment →
  Py.int0 (Py.slice_to addr_comment 10) = Some addr →
  Py.split " " (Py.strip line) !! 4%nat = Some tok →
  let entry name :=
    Some (<[addr := name]> funcs,
          if bool_decide (String.get 10 addr_comment = Some Py.flag)
          then labels ∪ {[name]} else labels) in
  (∀ name rest, tok = name ++ String "(" rest → Py.find "(" name = -1 →
     functions_h_line (funcs, labels) line = entry name)
  ∧ (∀ name c, tok = name ++ String c "" → Py.find "(" tok = -1 →
     functions_h_line (funcs, labels) line = entry name).
Proof.
  intros Hd Hac Haddr Htok entry.
  assert (Hline : ∀ name,
            functions_h_line (funcs, labels) line
            = entry (Py.slice_to tok (Py.find "(" tok))
            → Py.slice_to tok (Py.find "(" tok) = name
            → functions_h_line (funcs, labels) line = entry name)
    by (by intros name -> ->).
  assert (Hrun : functions_h_line (funcs, labels) line
                 = entry (Py.slice_to tok (Py.find "(" tok))).
  { unfold functions_h_line, entry. unfold is_declaration in Hd. rewrite Hd, Hac. cbn.
    rewrite Haddr. cbn. rewrite Htok. cbn. rewrite flag_test.
    by destruct (bool_decide _). }
  split.
  - intros name rest Heq Hname. apply Hline; [done|]. subst tok.
    by rewrite (find_first _ _ _ Hname), slice_to_inside.
  - intros name c Heq Hnone. apply Hline; [done|]. rewrite Hnone. subst tok.
    apply slice_to_minus_one.
Qed.

(** [bar(void);] declares [bar]; [counter;] declares [counter]. *)
Lemma functions_h_name_example :
  functions_h_line (∅, ∅) ("/* 0x80001000! */ s32 bar(void);" ++ NL)
  = Some ({[ 0x80001000 := "bar" ]}, ∅ ∪ {[ "bar" ]})
  ∧ functions_h_line (∅, ∅) ("/* 0x80001000 */ void counter;" ++ NL)
    = Some ({[ 0x80001000 := "counter" ]}, ∅).
Proof.
  split.
  - destruct (functions_h_name ∅ ∅ ("/* 0x80001000! */ s32 bar(void);" ++ NL)
                "0x80001000!" "bar(void);" 0x80001000) as [H _];
      [reflexivity..|].
    apply (H "bar" "void);"); reflexivity.
  - destruct (functions_h_name ∅ ∅ ("/* 0x80001000 */ void counter;" ++ NL)
                "0x80001000" "counter;" 0x80001000) as [_ H];
      [reflexivity..|].
    apply (H "counter" ";"%char); reflexivity.
Defined.

(** X8: the names of the report are exactly the required names that no
    segment has defined: a defined name is never reported, and nothing is
    reported that was not required. *)
Theorem report_names (undefined defined : gset string) (c_funcs : gmap Z string)
    (name : string) :
  name ∈ to_write undefined defined c_funcs ↔ name ∈ undefined ∧ name ∉ defined.
Proof.
  unfold to_write. destruct (sorted_spec (minus_int_set (undefined ∖ defined) (dom c_funcs)))
    as (_ & _ & ->). rewrite minus_int_set_id. set_solver.
Qed.

(** ** The driver *)

Section EngineProps.

Local Open Scope list_scope.

Context (parse_segment_type : yaml → option string)
        (parse_segment_start : yaml → option Z)
        (parse_segment_name : yaml → option string)
        (segtypes : string → option (string → option SegClass))
        (rom_bytes : Rom) (repo_path : string) (config : Config)
        (options : Options) (c_funcs : gmap Z string)
        (c_func_labels_to_add : gset string) (c_vars : gmap Z string).

Local Abbreviation new_seg :=
  (new_segment parse_segment_type parse_segment_start parse_segment_name).
Local Abbreviation body :=
  (init_segment parse_segment_type parse_segment_start parse_segment_name segtypes
     rom_bytes repo_path config options c_funcs c_func_labels_to_add c_vars).
Local Abbreviation loop :=
  (init_segments parse_segment_type parse_segment_start parse_segment_name segtypes
     rom_bytes repo_path config options c_funcs c_func_labels_to_add c_vars).
Local Abbreviation the_run :=
  (run parse_segment_type parse_segment_start parse_segment_name segtypes
     rom_bytes repo_path config options c_funcs c_func_labels_to_add c_vars).

Local Abbreviation class_of := (segment_class_of parse_segment_type segtypes).
Local Abbreviation constructed :=
  (construct parse_segment_type parse_segment_start parse_segment_name segtypes config).
Local Abbreviation announced := (announce options).
Local Abbreviation shared_of := (shared_for c_funcs c_func_labels_to_add c_vars).
Local Abbreviation built := (built_at parse_segment_start config).
Local Abbreviation spec_of :=
  (step_spec parse_segment_type parse_segment_start parse_segment_name segtypes
     rom_bytes repo_path config options c_funcs c_func_labels_to_add c_vars).
Local Abbreviation finishing := (finish repo_path config options c_funcs).

Lemma removelast_snoc {A} (l : list A) (x : A) : removelast (l ++ [x]) = l.
Proof. apply removelast_last. Qed.

Lemma injected_new_segment i segment next_segment seg :
  new_seg i segment next_segment = Some seg →
  seg_id seg = i ∧ injected seg = false
  ∧ parse_segment_name segment = Some (name seg)
  ∧ parse_segment_start segment = Some (rom_start seg)
  ∧ parse_segment_start next_segment = Some (rom_end seg).
Proof.
  unfold new_segment. intros H.
  destruct (parse_segment_type segment); [|done]. cbn in H.
  destruct (parse_segment_name segment); [|done]. cbn in H.
  destruct (parse_segment_start segment); [|done]. cbn in H.
  destruct (parse_segment_start next_segment); [|done]. cbn in H.
  by simplify_eq.
Qed.

Lemma init_segment_spec i segment st : spec_of i segment st (body i segment st).
Proof.
  unfold init_segment, bind, or_raise, ret, raise.
  destruct (yaml_len segment) as [n|] eqn:Hlen; [|by constructor].
  destruct (Nat.eqb_spec n 1) as [->|Hn]; [by constructor|].
  assert (Hst : st = mkState (segments st) (ld_sections st) (ld_symbols st)
                       (seen_segment_names st) (defined_funcs st)
                       (undefined_funcs st) (trace st ++ []))
    by (destruct st; cbn; by rewrite app_nil_r).
  destruct (parse_segment_type segment) as [seg_type|] eqn:Hty.
  2:{ eapply step_unbuilt with (n := n) (evs := []); try done; [|by left].
      unfold construct, segment_class_of. by rewrite Hty. }
  destruct (segtypes seg_type) as [segmodule|] eqn:Hmod.
  2:{ eapply step_unbuilt with (n := n) (evs := []); try done; [|by left].
      unfold construct, segment_class_of. rewrite Hty. cbn. by rewrite Hmod. }
  destruct (class_name seg_type) as [cname|] eqn:Hcn.
  2:{ eapply step_unbuilt with (n := n) (evs := []); try done; [|by left].
      unfold construct, segment_class_of. rewrite Hty. cbn. rewrite Hmod. cbn.
      by rewrite Hcn. }
  destruct (segmodule cname) as [cls|] eqn:Hcls.
  2:{ eapply step_unbuilt with (n := n) (evs := []); try done; [|by left].
      unfold construct, segment_class_of. rewrite Hty. cbn. rewrite Hmod. cbn.
      rewrite Hcn. cbn. by rewrite Hcls. }
  assert (Hclass : class_of segment = Some cls).
  { unfold segment_class_of. rewrite Hty. cbn. rewrite Hmod. cbn.
    rewrite Hcn. cbn. by rewrite Hcls. }
  destruct (config_segments config !! S i) as [next_segment|] eqn:Hnext.
  2:{ eapply step_unbuilt with (n := n) (evs := []); try done; [|by left].
      unfold construct. rewrite Hclass. cbn. by rewrite Hnext. }
  clear Hst. cbn [emit modify].
  destruct (new_seg i segment next_segment) as [seg|] eqn:Hnew.
  2:{ eapply step_unbuilt with (n := n) (evs := [EvNew i]); try done; [|by right].
      unfold construct. rewrite Hclass. cbn. rewrite Hnext. cbn. by rewrite Hnew. }
  assert (Hc : constructed i segment = Some (cls, seg)).
  { unfold construct. rewrite Hclass. cbn. rewrite Hnext. cbn. by rewrite Hnew. }
  change (if is_N64SegCode cls then inject seg else seg) with (prepared cls seg).
  unfold set_segments, set_current, set_seen, set_funcs, set_ld, when, get, emit,
    modify, py_exit. cbn.
  assert (Hfresh : require_unique_name cls = true
                   → bool_decide (name seg ∈ seen_segment_names st) = false
                   → name seg ∉ seen_segment_names st)
    by (intros _ Hd; by apply bool_decide_eq_false in Hd).
  destruct (require_unique_name cls) eqn:Hu; cbn;
    [destruct (bool_decide (name seg ∈ seen_segment_names st)) eqn:Hd; cbn|].
  { eapply step_duplicate; try done; [by apply bool_decide_eq_true in Hd|].
    f_equal. by rewrite <- app_assoc. }
  all: rewrite removelast_snoc.
  all: destruct (verbose options) eqn:Hv; cbn.
  all: destruct (check cls (prepared cls seg)) eqn:Hcheck; cbn.
  all: change (if injected (prepared cls seg)
               then Some (mkShared (defined_funcs st) c_funcs c_vars c_func_labels_to_add)
               else None) with (shared_of (prepared cls seg) st).
  all: try (destruct (split cls (prepared cls seg) _ rom_bytes repo_path)
              as [eff|] eqn:Hsplit; cbn).
  all: try rewrite removelast_snoc.
  all: try (destruct (get_ld_section cls (with_labels (prepared cls seg) eff))
              as [ld_section syms] eqn:Hget).
  all: destruct (is_N64SegCode cls) eqn:Hcode; cbn.
  all: assert (Hfresh' : require_unique_name cls = true
                         → name seg ∉ seen_segment_names st)
         by (rewrite Hu; intros Hreq; first [by apply Hfresh | congruence]).
  all: first
    [ eapply step_done with (n := n) (cls := cls) (seg := seg) (eff := eff); [done..|];
      rewrite Hget, Hcode; cbn; unfold seen_after, announce;
      rewrite Hu, Hv; f_equal; by rewrite <- ?app_assoc
    | eapply step_failed with (n := n) (cls := cls) (seg := seg) (evs := [EvCheck i; EvSplit i]);
      [done | done | done | done | right; done |];
      unfold seen_after, announce; rewrite Hu, Hv; f_equal; by rewrite <- ?app_assoc
    | eapply step_failed with (n := n) (cls := cls) (seg := seg) (evs := [EvCheck i]);
      [done | done | done | done | left; done |];
      unfold seen_after, announce; rewrite Hu, Hv; f_equal; by rewrite <- ?app_assoc
    ].
Qed.

Lemma construct_inv i segment cls seg :
  constructed i segment = Some (cls, seg) →
  class_of segment = Some cls
  ∧ ∃ next_segment, config_segments config !! S i = Some next_segment
                    ∧ new_seg i segment next_segment = Some seg.
Proof.
  unfold construct. intros H.
  destruct (class_of segment) as [cls'|]; [|done]. cbn in H.
  destruct (config_segments config !! S i) as [next_segment|]; [|done]. cbn in H.
  destruct (new_seg i segment next_segment) as [seg'|] eqn:Hnew; [|done].
  cbn in H. simplify_eq. eauto.
Qed.

Lemma construct_id i segment cls seg :
  constructed i segment = Some (cls, seg) → seg_id seg = i.
Proof.
  intros (_ & next & _ & Hnew)%construct_inv.
  by apply injected_new_segment in Hnew as (? & _).
Qed.

Lemma loop_event_mono lo hi lo' hi' e :
  (lo' ≤ lo)%nat → (hi ≤ hi')%nat → loop_event lo hi e → loop_event lo' hi' e.
Proof. intros ??. destruct e; cbn; lia || done. Qed.

Lemma built_at_construct i d cls seg seg' :
  constructed i d = Some (cls, seg) → yaml_len d ≠ Some 1%nat →
  seg_id seg' = seg_id seg → rom_start seg' = rom_start seg →
  rom_end seg' = rom_end seg →
  (injected seg' = true → is_N64SegCode cls = true) →
  built i d (cls, seg').
Proof.
  intros (_ & next & Hnext & Hnew)%construct_inv Hlen Hid Hstart Hend Hinj.
  apply injected_new_segment in Hnew as (Hi & _ & _ & Hs & He).
  unfold built_at. cbn. rewrite Hid, Hstart, Hend. eauto 10.
Qed.

Lemma injected_prepared i d cls seg :
  constructed i d = Some (cls, seg) → injected (prepared cls seg) = is_N64SegCode cls.
Proof.
  intros (_ & next & _ & Hnew)%construct_inv.
  apply injected_new_segment in Hnew as (_ & Hinj & _).
  unfold prepared. by destruct (is_N64SegCode cls).
Qed.

Lemma prepared_descr cls seg :
  seg_id (prepared cls seg) = seg_id seg ∧ name (prepared cls seg) = name seg
  ∧ rom_start (prepared cls seg) = rom_start seg
  ∧ rom_end (prepared cls seg) = rom_end seg.
Proof. unfold prepared. by destruct (is_N64SegCode cls). Qed.

(** One pass through the body: the objects appended and the events
    emitted. *)
Lemma step_effect i d st :
  let r := body i d st in
  ∃ news evs,
    segments (final r) = segments st ++ news
    ∧ trace (final r) = trace st ++ evs
    ∧ Forall (built i d) news
    ∧ Forall (loop_event i (S i)) evs
    ∧ (outcome r = None →
         map (λ o, seg_id o.2) news
         = (if decide (yaml_len d = Some 1%nat) then [] else [i])
         ∧ (∀ o, o ∈ news → EvSplit i ∈ evs)).
Proof.
  cbn. destruct (init_segment_spec i d st)
    as [Hlen | Hlen | n exn evs st' Hlen Hn Hc Hevs ->
        | n cls seg st' Hlen Hn Hc Hu Hseen ->
        | n cls seg evs st' Hlen Hn Hc Hfresh Hfail ->
        | n cls seg eff st' Hlen Hn Hc Hfresh Hcheck Hsplit seg' defined ->];
    try subst seg' defined; cbn.
  - exists [], []. rewrite !app_nil_r. repeat split; try done.
  - exists [], []. rewrite !app_nil_r. repeat split; try done.
    + by rewrite decide_True.
    + by intros o ?%elem_of_nil.
  - exists [], evs. rewrite app_nil_r. repeat split; try done.
    destruct Hevs as [-> | ->]; repeat constructor; lia.
  - exists [(cls, seg)], [EvNew i; EvPrint ("ERROR: Segment name " ++ name seg ++ " is not unique")%string].
    repeat split; try done.
    + constructor; [|done]. eapply built_at_construct; eauto; [congruence|].
      apply construct_inv in Hc as (_ & next & _ & Hnew).
      apply injected_new_segment in Hnew as (_ & Hinj & _). congruence.
    + repeat constructor; lia.
  - exists [(cls, prepared cls seg)], (EvNew i :: announced (prepared cls seg) ++ evs).
    destruct (prepared_descr cls seg) as (? & ? & ? & ?).
    repeat split; try done.
    + constructor; [|done]. eapply built_at_construct; eauto; [congruence|].
      by rewrite (injected_prepared _ _ _ _ Hc).
    + constructor; [cbn; lia|]. apply Forall_app. split.
      * unfold announce. destruct (verbose options); repeat constructor.
      * destruct Hfail as [[_ ->] | (_ & _ & ->)]; repeat constructor; lia.
  - exists [(cls, with_labels (prepared cls seg) eff)],
      (EvNew i :: announced (prepared cls seg) ++ [EvCheck i; EvSplit i; EvGetLdSection i]).
    destruct (prepared_descr cls seg) as (? & ? & ? & ?).
    repeat split; try done.
    + constructor; [|done]. eapply built_at_construct; eauto; [congruence|].
      cbn. by rewrite (injected_prepared _ _ _ _ Hc).
    + constructor; [cbn; lia|]. apply Forall_app. split.
      * unfold announce. destruct (verbose options); repeat constructor.
      * repeat constructor; lia.
    + cbn. rewrite decide_False by congruence.
      f_equal. etrans; [eassumption|]. by eapply construct_id.
    + intros _ _. apply list_elem_of_further, elem_of_app. right.
      apply list_elem_of_further, list_elem_of_here.
Qed.

Ltac step_cases i d st :=
  destruct (init_segment_spec i d st)
    as [Hlen | Hlen | n exn evs st' Hlen Hn Hc Hevs ->
        | n kl sg st' Hlen Hn Hc Hu Hseen ->
        | n kl sg evs st' Hlen Hn Hc Hfresh Hfail ->
        | n kl sg eff st' Hlen Hn Hc Hfresh Hcheck Hsplit sg' defined ->];
  try subst sg' defined; cbn.

(** The names seen only grow, and a completed pass has seen the name of a
    descriptor whose class wants unique names. *)
Lemma step_seen i d st :
  let r := body i d st in
  seen_segment_names st ⊆ seen_segment_names (final r)
  ∧ (outcome r = None → ∀ cls seg,
       yaml_len d ≠ Some 1%nat → constructed i d = Some (cls, seg) →
       require_unique_name cls = true → name seg ∈ seen_segment_names (final r)).
Proof.
  cbn. step_cases i d st; (split; [try done|]); try done.
  - unfold seen_after. destruct (require_unique_name kl); set_solver.
  - unfold seen_after. destruct (require_unique_name kl); set_solver.
  - intros _ c s _ Hc' Hu. simplify_eq. unfold seen_after. rewrite Hu.
    set_solver.
Qed.

(** Every way the body stops ends the process with status 1. *)
Lemma step_exit i d st :
  outcome (body i d st) ≠ None → exit_status (outcome (body i d st)) = 1.
Proof. step_cases i d st; done. Qed.

(** The body at a descriptor whose name has been seen. *)
Lemma step_seen_name i d st cls seg :
  constructed i d = Some (cls, seg) → yaml_len d ≠ Some 1%nat →
  require_unique_name cls = true → name seg ∈ seen_segment_names st →
  (yaml_len d = None ∧ body i d st = Stop (Raised "TypeError") st)
  ∨ body i d st
    = Stop (Exited 1)
        (mkState (segments st ++ [(cls, seg)]) (ld_sections st) (ld_symbols st)
           (seen_segment_names st) (defined_funcs st) (undefined_funcs st)
           (trace st ++ [EvNew i;
              EvPrint ("ERROR: Segment name " ++ name seg ++ " is not unique")%string])).
Proof.
  intros Hc' Hlen' Hu' Hin.
  step_cases i d st; simplify_eq; try done; try (by left); try (by right).
  - destruct Hfresh; done.
  - destruct Hfresh; done.
Qed.

Lemma loop_app i l1 l2 st :
  loop i (l1 ++ l2) st
  = match loop i l1 st with
    | Ok _ st' => loop (i + length l1) l2 st'
    | Stop o st' => Stop o st'
    end.
Proof.
  revert i st. induction l1 as [|d l1 IH]; intros i st; cbn.
  - by rewrite Nat.add_0_r.
  - unfold bind. destruct (body i d st) as [[] st'|o st']; [|done].
    rewrite IH. by replace (S i + length l1)%nat with (i + S (length l1))%nat by lia.
Qed.

Lemma loop_effect rest : ∀ i st,
  let r := loop i rest st in
  ∃ news evs,
    segments (final r) = segments st ++ news
    ∧ trace (final r) = trace st ++ evs
    ∧ Forall (λ o, ∃ k d, rest !! k = Some d ∧ built (i + k) d o) news
    ∧ Forall (loop_event i (i + length rest)) evs
    ∧ (outcome r = None →
         map (λ o, seg_id o.2) news = descriptor_positions i rest
         ∧ (∀ o, o ∈ news → EvSplit (seg_id o.2) ∈ evs)).
Proof.
  induction rest as [|d rest IH]; intros i st; cbn.
  - exists [], []. rewrite !app_nil_r. repeat split; try done.
    by intros o ?%elem_of_nil.
  - unfold bind.
    destruct (step_effect i d st) as (news1 & evs1 & Hseg1 & Htr1 & Hb1 & He1 & Hok1).
    cbn in *. destruct (body i d st) as [[] st1|o st1]; cbn in *.
    + destruct (IH (S i) st1) as (news2 & evs2 & Hseg2 & Htr2 & Hb2 & He2 & Hok2).
      cbn in *. exists (news1 ++ news2), (evs1 ++ evs2).
      rewrite Hseg2, Htr2, Hseg1, Htr1, !app_assoc.
      split; [done|]. split; [done|]. split; [|split].
      * apply Forall_app. split.
        -- eapply Forall_impl; [exact Hb1|]. intros o Hb. exists 0%nat, d.
           by rewrite Nat.add_0_r.
        -- eapply Forall_impl; [exact Hb2|]. intros o (k & d' & Hk & Hb).
           exists (S k), d'. split; [done|].
           by replace (i + S k)%nat with (S i + k)%nat by lia.
      * apply Forall_app. split.
        -- eapply Forall_impl; [exact He1|]. intros e.
           apply loop_event_mono; lia.
        -- eapply Forall_impl; [exact He2|]. intros e.
           apply loop_event_mono; lia.
      * intros Hnone. destruct (Hok1 eq_refl) as [Hids1 Hsp1].
        destruct (Hok2 Hnone) as [Hids2 Hsp2]. split.
        -- by rewrite map_app, Hids1, Hids2.
        -- intros o [Ho|Ho]%elem_of_app; apply elem_of_app.
           ++ left. assert (seg_id o.2 = i) as ->; [|by eapply Hsp1].
              rewrite Forall_forall in Hb1. by destruct (Hb1 o Ho).
           ++ right. by apply Hsp2.
    + exists news1, evs1. split; [done|]. split; [done|]. split; [|split].
      * eapply Forall_impl; [exact Hb1|]. intros o' Hb. exists 0%nat, d.
        by rewrite Nat.add_0_r.
      * eapply Forall_impl; [exact He1|]. intros e. apply loop_event_mono; lia.
      * done.
Qed.

Lemma loop_seen rest : ∀ i st,
  let r := loop i rest st in
  seen_segment_names st ⊆ seen_segment_names (final r)
  ∧ (outcome r = None → ∀ k d cls seg,
       rest !! k = Some d → yaml_len d ≠ Some 1%nat →
       constructed (i + k) d = Some (cls, seg) → require_unique_name cls = true →
       name seg ∈ seen_segment_names (final r)).
Proof.
  induction rest as [|d rest IH]; intros i st; cbn.
  - split; [done|]. by intros _ k d cls seg ?.
  - unfold bind. destruct (step_seen i d st) as [Hsub1 Hin1]. cbn in *.
    destruct (body i d st) as [[] st1|o st1]; cbn in *; [|done].
    destruct (IH (S i) st1) as [Hsub2 Hin2]. cbn in *.
    split; [set_solver|]. intros Hnone [|k] d' cls seg Hk Hlen Hc Hu; cbn in Hk.
    + simplify_eq. rewrite Nat.add_0_r in Hc. apply Hsub2. by eapply Hin1.
    + eapply (Hin2 Hnone k); eauto.
      match goal with
      | |- constructed ?x _ = _ => by replace x with (i + S k)%nat by lia
      end.
Qed.

Lemma loop_exit rest : ∀ i st,
  outcome (loop i rest st) ≠ None → exit_status (outcome (loop i rest st)) = 1.
Proof.
  induction rest as [|d rest IH]; intros i st; cbn; [done|].
  unfold bind. pose proof (step_exit i d st) as Hstep.
  destruct (body i d st) as [[] st1|o st1]; cbn in *; [apply IH | done].
Qed.

Lemma with_trace_id st : with_trace st (trace st ++ []) = st.
Proof. destruct st. unfold with_trace. cbn. by rewrite app_nil_r. Qed.

(** The second loop changes nothing but the trace: one call per object
    visited, each with the whole list. *)
Lemma postsplit_all_effect todo : ∀ st,
  let r := postsplit_all todo st in
  let all := map (λ o, seg_id o.2) (segments st) in
  ∃ visited,
    final r = with_trace st (trace st ++ map (λ id, EvPostsplit id all) visited)
    ∧ visited `prefix_of` map (λ o, seg_id o.2) todo
    ∧ (outcome r = None → visited = map (λ o, seg_id o.2) todo)
    ∧ (outcome r ≠ None → exit_status (outcome r) = 1).
Proof.
  induction todo as [|[cls seg] todo IH]; intros st; cbn.
  - exists []. cbn. rewrite with_trace_id. repeat split; done.
  - unfold bind, get, emit, modify, ret, raise. cbn.
    destruct (postsplit cls seg (map snd (segments st))); cbn.
    + match goal with
      | |- context [postsplit_all todo ?s] =>
          destruct (IH s) as (visited & Hfin & Hpre & Hok & Hstop)
      end.
      cbn in *. exists (seg_id seg :: visited). rewrite Hfin.
      unfold with_trace. cbn. rewrite <- app_assoc. cbn.
      split; [done|]. split; [by apply prefix_cons|]. split; [|done].
      intros Hnone. by rewrite (Hok Hnone).
    + exists [seg_id seg]. unfold with_trace. cbn.
      split; [done|]. split; [|done]. apply prefix_cons, prefix_nil.
Qed.

Lemma write_ld_effect st :
  ∃ evs, final (write_ld repo_path config options st)
         = with_trace st (trace st ++ evs)
    ∧ Forall is_write evs
    ∧ (outcome (write_ld repo_path config options st) ≠ None →
       exit_status (outcome (write_ld repo_path config options st)) = 1).
Proof.
  unfold write_ld, when, bind, or_raise, get, emit, modify, ret, raise.
  destruct (_ || _); cbn; [|exists []; by rewrite with_trace_id].
  destruct (basename config) as [rom_name|]; cbn;
    [|exists []; by rewrite with_trace_id].
  destruct (ld_addrs_header options) as [h_path|]; cbn.
  - eexists [_; _]. unfold with_trace. cbn. rewrite <- app_assoc. cbn.
    split; [done|]. split; [by repeat constructor | done].
  - eexists [_]. unfold with_trace. cbn.
    split; [done|]. split; [by repeat constructor | done].
Qed.

Lemma run_finish st :
  the_run st
  = match loop 0 (config_segments config) st with
    | Ok _ st1 => finishing st1
    | Stop o st1 => Stop o st1
    end.
Proof. reflexivity. Qed.

Lemma finish_effect st1 :
  let all := map (λ o, seg_id o.2) (segments st1) in
  ∃ visited post,
    final (finishing st1)
    = with_trace st1 (trace st1 ++ map (λ id, EvPostsplit id all) visited ++ post)
    ∧ visited `prefix_of` all
    ∧ Forall is_write post
    ∧ (outcome (finishing st1) = None → visited = all)
    ∧ (outcome (finishing st1) ≠ None → exit_status (outcome (finishing st1)) = 1).
Proof.
  assert (Hr : finishing st1
               = match postsplit_all (segments st1) st1 with
                 | Ok _ st2 =>
                     match write_ld repo_path config options st2 with
                     | Ok _ st3 => write_undefined_funcs repo_path c_funcs st3
                     | Stop o st3 => Stop o st3
                     end
                 | Stop o st2 => Stop o st2
                 end) by reflexivity.
  rewrite Hr. clear Hr.
  destruct (postsplit_all_effect (segments st1) st1)
    as (visited & Hfin & Hpre & Hok & Hstop). cbn [final outcome] in *.
  destruct (postsplit_all (segments st1) st1) as [[] st2|o st2];
    cbn [final outcome] in *.
  - subst st2.
    match goal with
    | |- context [write_ld _ _ _ ?s] =>
        destruct (write_ld_effect s) as (evs & Hw & Hevs & Hwstop)
    end.
    destruct (write_ld repo_path config options _) as [[] st3|o st3];
      cbn [final outcome] in *.
    + subst st3. rewrite write_undefined_funcs_effect. cbn [final outcome].
      eexists visited, (evs ++ _). unfold with_trace. cbn.
      rewrite <- !app_assoc. split; [done|]. split; [done|].
      split; [|split; [by intros _; apply Hok | done]].
      apply Forall_app. split; [done|].
      destruct (undefined_funcs_txt _ _ _ _) as [[path text]|];
        by repeat constructor.
    + subst st3. exists visited, evs. unfold with_trace. cbn.
      rewrite <- !app_assoc. split; [done|]. split; [done|].
      split; [done|]. split; [done|]. intros _. by apply Hwstop.
  - subst st2. exists visited, []. rewrite app_nil_r.
    split; [done|]. split; [done|]. split; [done|]. split; [done|].
    intros _. by apply Hstop.
Qed.

(** C1: every segment constructed comes from a descriptor that is not a
    single-field entry; its range starts at the start of its own
    descriptor and ends at the start of the next descriptor of the
    configuration; and when the first loop completes, the segments are, in
    order, those of the descriptors that are not single-field entries: a
    single-field entry yields no segment. *)
Theorem segments_follow_descriptors :
  let r := the_run init_state in
  (∀ o, o ∈ segments (final r) →
     ∃ d next_segment,
       config_segments config !! seg_id o.2 = Some d
       ∧ yaml_len d ≠ Some 1%nat
       ∧ config_segments config !! S (seg_id o.2) = Some next_segment
       ∧ parse_segment_start d = Some (rom_start o.2)
       ∧ parse_segment_start next_segment = Some (rom_end o.2))
  ∧ (outcome (loop 0 (config_segments config) init_state) = None →
     map (λ o, seg_id o.2) (segments (final r))
     = descriptor_positions 0 (config_segments config)).
Proof.
  cbn zeta. rewrite run_finish.
  destruct (loop_effect (config_segments config) 0 init_state)
    as (news & evs & Hseg & Htr & Hbuilt & Hevs & Hok).
  cbn [final outcome] in *.
  assert (Hfinal : segments (final (match loop 0 (config_segments config) init_state with
                                    | Ok _ st1 => finishing st1
                                    | Stop o st1 => Stop o st1
                                    end)) = news).
  { destruct (loop 0 (config_segments config) init_state) as [[] st1|o st1];
      cbn [final] in *; [|done].
    destruct (finish_effect st1) as (visited & post & -> & _). done. }
  rewrite Hfinal. split.
  - intros o Ho. rewrite Forall_forall in Hbuilt.
    destruct (Hbuilt o Ho) as (k & d & Hk & Hid & Hlen & (next & Hnext & Hs & He) & _).
    cbn in Hid, Hnext. rewrite Hid. eauto 10.
  - intros Hnone. by apply Hok.
Qed.

(** C5: when two descriptors, neither a single-field entry, are built by
    classes that require unique names and get the same name, the run does
    not complete: the process ends with status 1, and [split] is never
    invoked on the second one.  If the run reaches the second descriptor,
    it stops there, right after the construction, with the diagnostic
    naming the segment and [exit(1)]. *)
Theorem duplicate_name_aborts (i j : nat) (di dj : yaml)
    (clsi clsj : SegClass) (segi segj : Segment) :
  (i < j)%nat →
  config_segments config !! i = Some di →
  config_segments config !! j = Some dj →
  yaml_len di ≠ Some 1%nat → yaml_len dj ≠ Some 1%nat →
  constructed i di = Some (clsi, segi) →
  constructed j dj = Some (clsj, segj) →
  require_unique_name clsi = true → require_unique_name clsj = true →
  name segi = name segj →
  let r := the_run init_state in
  outcome r ≠ None
  ∧ exit_status (outcome r) = 1
  ∧ (EvSplit j ∉ trace (final r))
  ∧ (∀ st, loop 0 (take j (config_segments config)) init_state = Ok tt st →
       is_Some (yaml_len dj) →
       r = Stop (Exited 1)
             (mkState (segments st ++ [(clsj, segj)]) (ld_sections st) (ld_symbols st)
                (seen_segment_names st) (defined_funcs st) (undefined_funcs st)
                (trace st ++ [EvNew j;
                   EvPrint ("ERROR: Segment name " ++ name segj
                            ++ " is not unique")%string]))).
Proof.
  intros Hij Hi Hj Hleni Hlenj Hci Hcj Hui Huj Hname. cbn zeta.
  assert (Hlen : length (take j (config_segments config)) = j).
  { apply length_take_le. apply lookup_lt_Some in Hj. lia. }
  assert (Hrun : the_run init_state
                 = match loop 0 (take j (config_segments config)) init_state with
                   | Ok _ st1 =>
                       match body j dj st1 with
                       | Ok _ st2 =>
                           match loop (S j) (drop (S j) (config_segments config)) st2 with
                           | Ok _ st3 => finishing st3
                           | Stop o st3 => Stop o st3
                           end
                       | Stop o st2 => Stop o st2
                       end
                   | Stop o st1 => Stop o st1
                   end).
  { rewrite run_finish. rewrite <- (take_drop_middle _ _ _ Hj) at 1.
    rewrite loop_app, Hlen. cbn [Nat.add].
    destruct (loop 0 (take j (config_segments config)) init_state) as [[] st1|o st1];
      [|done].
    cbn [init_segments]. unfold bind. by destruct (body j dj st1) as [[] st2|o st2]. }
  rewrite Hrun. clear Hrun.
  destruct (loop_effect (take j (config_segments config)) 0 init_state)
    as (news & evs & _ & Htr & _ & Hevs & _).
  pose proof (loop_exit (take j (config_segments config)) 0 init_state) as Hexit.
  destruct (loop_seen (take j (config_segments config)) 0 init_state) as [_ Hseen].
  rewrite Hlen in Hevs. cbn [Nat.add init_state trace app] in *.
  assert (Hnosplit : EvSplit j ∉ evs).
  { intros Hin. rewrite Forall_forall in Hevs. apply Hevs in Hin. cbn in Hin. lia. }
  destruct (loop 0 (take j (config_segments config)) init_state) as [[] st1|o st1];
    cbn [final outcome] in *.
  - assert (Hin : name segj ∈ seen_segment_names st1).
    { rewrite <- Hname.
      apply (Hseen eq_refl i di clsi segi); [by rewrite lookup_take_lt | done..]. }
    destruct (step_seen_name j dj st1 clsj segj Hcj Hlenj Huj Hin)
      as [[Hnone ->] | ->]; cbn [final outcome].
    + split; [done|]. split; [done|]. split; [by rewrite Htr|].
      intros st Hst [n Hn]. congruence.
    + split; [done|]. split; [done|]. split.
      * rewrite Htr. cbn. rewrite !elem_of_app, !elem_of_cons, elem_of_nil.
        intros [?|[?|[?|?]]]; done.
      * intros st Hst _. by simplify_eq.
  - split; [done|]. split; [by apply Hexit|]. split; [by rewrite Htr|].
    intros st Hst. done.
Qed.

(** C8: the trace of a run is the first loop, then the calls of
    [postsplit], then the files.  Every [split] lies in the first part,
    which holds no [postsplit]; the calls of [postsplit] go through the
    constructed segments in their order, each with the complete list of
    segments, and go through all of them in a run that completes; and
    once any [postsplit] is invoked, [split] has been invoked on every
    constructed segment. *)
Theorem postsplit_after_every_split :
  let r := the_run init_state in
  let all := map (λ o, seg_id o.2) (segments (final r)) in
  ∃ pre visited post,
    trace (final r) = pre ++ map (λ id, EvPostsplit id all) visited ++ post
    ∧ Forall (loop_event 0 (length (config_segments config))) pre
    ∧ Forall is_write post
    ∧ visited `prefix_of` all
    ∧ (outcome r = None → visited = all)
    ∧ (visited ≠ [] ∨ outcome r = None → ∀ id, id ∈ all → EvSplit id ∈ pre).
Proof.
  cbn zeta. rewrite run_finish.
  destruct (loop_effect (config_segments config) 0 init_state)
    as (news & evs & Hseg & Htr & _ & Hevs & Hok).
  cbn [Nat.add init_state trace segments app] in *.
  destruct (loop 0 (config_segments config) init_state) as [[] st1|o st1];
    cbn [final outcome] in *.
  - destruct (finish_effect st1) as (visited & post & Hfin & Hpre & Hpost & Hall & _).
    destruct (Hok eq_refl) as [_ Hsplit].
    rewrite Hfin. unfold with_trace. cbn [segments trace].
    exists evs, visited, post. rewrite Htr. split; [done|]. split; [done|].
    split; [done|]. split; [done|]. split; [done|].
    intros _ id Hid. rewrite Hseg in Hid.
    apply list_elem_of_fmap in Hid as (o & -> & Ho). by apply Hsplit.
  - exists evs, [], []. cbn [map app]. rewrite app_nil_r.
    split; [done|]. split; [done|]. split; [done|].
    split; [apply prefix_nil|]. split; [done|]. by intros [?|?].
Qed.

(** C10: only a segment whose class is the code class gets the shared
    state and has its labels folded into the shared sets.  Processing a
    single-field entry or a descriptor of another class leaves
    [defined_funcs] and [undefined_funcs] as they were, whatever the
    outcome, and its object is not injected; its [split] receives no
    shared state.  For the code class, [split] receives the shared state
    and, when it returns, the labels it added are joined to
    [defined_funcs] and the labels it needs to [undefined_funcs]. *)
Theorem shared_state_only_for_code (i : nat) (d : yaml) (st : State) :
  let r := body i d st in
  ((yaml_len d = Some 1%nat
    ∨ ∀ cls, class_of d = Some cls → is_N64SegCode cls = false) →
     defined_funcs (final r) = defined_funcs st
     ∧ undefined_funcs (final r) = undefined_funcs st
     ∧ ∀ o, o ∈ segments (final r) → o ∈ segments st ∨ injected o.2 = false)
  ∧ (∀ o, o ∈ segments (final r) →
       o ∈ segments st ∨ (injected o.2 = true → is_N64SegCode o.1 = true))
  ∧ (∀ cls seg,
       yaml_len d ≠ Some 1%nat → constructed i d = Some (cls, seg) →
       is_N64SegCode cls = false → outcome r = None →
       ∃ eff,
         split cls seg None rom_bytes repo_path = Some eff
         ∧ segments (final r) = segments st ++ [(cls, with_labels seg eff)])
  ∧ (∀ cls seg,
       yaml_len d ≠ Some 1%nat → constructed i d = Some (cls, seg) →
       is_N64SegCode cls = true → outcome r = None →
       ∃ eff,
         split cls (inject seg)
           (Some (mkShared (defined_funcs st) c_funcs c_vars c_func_labels_to_add))
           rom_bytes repo_path = Some eff
         ∧ segments (final r) = segments st ++ [(cls, with_labels (inject seg) eff)]
         ∧ defined_funcs (final r) = eff_all_functions eff ∪ eff_glabels_added eff
         ∧ undefined_funcs (final r) = undefined_funcs st ∪ eff_glabels_to_add eff).
Proof.
  cbn zeta.
  destruct (step_effect i d st) as (news & evs & Hseg & _ & Hbuilt & _).
  cbn zeta in Hseg.
  assert (Hinj : ∀ o, o ∈ segments (final (body i d st)) →
            o ∈ segments st ∨ (injected o.2 = true → is_N64SegCode o.1 = true)).
  { intros o. rewrite Hseg, elem_of_app. intros [?|Ho]; [by left | right].
    rewrite Forall_forall in Hbuilt. by destruct (Hbuilt o Ho) as (_ & _ & _ & ?). }
  split; [|split; [exact Hinj | split]].
  - intros Hother. clear Hseg Hbuilt Hinj news evs.
    assert (Hcode : ∀ cls seg, yaml_len d ≠ Some 1%nat →
              constructed i d = Some (cls, seg) → is_N64SegCode cls = false).
    { intros cls seg Hlen Hc. destruct Hother as [?|Hother]; [done|].
      apply Hother. by apply construct_inv in Hc as [? _]. }
    assert (Hfresh_inj : ∀ cls seg, constructed i d = Some (cls, seg) →
              injected seg = false).
    { intros cls seg (_ & next & _ & Hnew)%construct_inv.
      by apply injected_new_segment in Hnew as (_ & ? & _). }
    step_cases i d st;
      try (rewrite (injected_prepared _ _ _ _ Hc));
      try (rewrite (Hcode kl sg) by congruence);
      (split; [done|]); (split; [done|]); intros o Ho; try (by left);
      apply elem_of_app in Ho as [?|Ho]; try (by left); right;
      apply list_elem_of_singleton in Ho as ->; cbn;
      try (rewrite (injected_prepared _ _ _ _ Hc));
      try (rewrite (Hcode kl sg) by congruence); eauto.
  - clear Hseg Hbuilt Hinj news evs.
    step_cases i d st; intros cls seg Hlen' Hc' Hcode Hnone;
      try done; try congruence.
    simplify_eq. revert Hsplit. unfold shared_for.
    rewrite (injected_prepared _ _ _ _ Hc). unfold prepared. rewrite Hcode.
    intros Hsplit. eauto.
  - clear Hseg Hbuilt Hinj news evs.
    step_cases i d st; intros cls seg Hlen' Hc' Hcode Hnone;
      try done; try congruence.
    simplify_eq. revert Hsplit. unfold shared_for.
    rewrite !(injected_prepared _ _ _ _ Hc). unfold prepared. rewrite Hcode.
    intros Hsplit. eauto 10.
Qed.

(** *** Runs that complete *)

Local Abbreviation events_of := (segment_events options).
Local Abbreviation ld_files_of := (ld_files repo_path config options).
Local Abbreviation report_of := (report_file repo_path c_funcs).

(** A pass through the body that returns: the entry was skipped, or one
    object went through all the calls. *)
Lemma step_ok i d st st' :
  body i d st = Ok tt st' →
  (yaml_len d = Some 1%nat ∧ st' = st)
  ∨ ∃ cls seg eff o,
      o = (cls, with_labels (prepared cls seg) eff)
      ∧ yaml_len d ≠ Some 1%nat
      ∧ constructed i d = Some (cls, seg)
      ∧ (require_unique_name cls = true → name seg ∉ seen_segment_names st)
      ∧ segments st' = segments st ++ [o]
      ∧ ld_sections st' = ld_sections st ++ [fragment o]
      ∧ ld_symbols st' = od_update (ld_symbols st) (get_ld_section o.1 o.2).2
      ∧ seen_segment_names st' = seen_after cls seg (seen_segment_names st)
      ∧ undefined_funcs st'
        = (if is_N64SegCode cls
           then undefined_funcs st ∪ glabels_to_add o.2 else undefined_funcs st)
      ∧ trace st' = trace st ++ events_of o.
Proof.
  intros Hbody. pose proof (init_segment_spec i d st) as Hspec.
  rewrite Hbody in Hspec.
  inversion Hspec as [ | Hlen | | | | n cls seg eff st'' Hlen Hn Hc Hfresh Hcheck Hsplit sg' defined Heq];
    [by left | right].
  exists cls, seg, eff, (cls, with_labels (prepared cls seg) eff).
  assert (Hid : seg_id (prepared cls seg) = i).
  { unfold prepared. destruct (is_N64SegCode cls); cbn; by eapply construct_id. }
  split; [done|]. split; [congruence|]. split; [done|]. split; [done|].
  unfold segment_events, fragment, announce. cbn. rewrite Hid.
  subst sg' defined. rewrite Heq. done.
Qed.

Lemma od_update_keys d other :
  NoDup d.*1 → NoDup (od_update d other).*1.
Proof.
  unfold od_update. revert d. induction other as [|[k v] other IH]; intros d Hd; [done|].
  cbn [fold_left]. apply IH. clear IH. cbn.
  induction d as [|[k' v'] d IHd]; cbn.
  - apply NoDup_singleton.
  - apply NoDup_cons in Hd as [Hk' Hd]. destruct (String.eqb_spec k' k) as [->|Hne].
    + cbn. by apply NoDup_cons.
    + cbn. apply NoDup_cons. split; [|by apply IHd].
      clear IHd Hd. induction d as [|[k'' v''] d IHd]; cbn.
      * rewrite list_elem_of_singleton. congruence.
      * cbn in Hk'. apply not_elem_of_cons in Hk' as [Hne' Hk'].
        destruct (String.eqb k'' k) eqn:Heq; cbn.
        -- apply String.eqb_eq in Heq as ->. apply not_elem_of_cons. done.
        -- apply not_elem_of_cons. split; [done|]. by apply IHd.
Qed.

(** The first loop, when it completes. *)
Lemma loop_ok rest : ∀ i st st',
  loop i rest st = Ok tt st' →
  ∃ news,
    segments st' = segments st ++ news
    ∧ ld_sections st' = ld_sections st ++ map fragment news
    ∧ trace st' = trace st ++ concat (map events_of news)
    ∧ undefined_funcs st' = undefined_funcs st ∪ required_by news
    ∧ seen_segment_names st' = seen_segment_names st ∪ list_to_set (unique_names news)
    ∧ NoDup (unique_names news)
    ∧ (∀ n, n ∈ unique_names news → n ∉ seen_segment_names st)
    ∧ (NoDup (ld_symbols st).*1 → NoDup (ld_symbols st').*1).
Proof.
  induction rest as [|d rest IH]; intros i st st' Hloop; cbn [init_segments] in Hloop.
  - unfold ret in Hloop. simplify_eq. exists []. cbn. rewrite !app_nil_r.
    unfold required_by, unique_names. cbn.
    split; [done|]. split; [done|]. split; [done|]. split; [set_solver|].
    split; [set_solver|]. split; [constructor|]. split; [|done].
    by intros n ?%elem_of_nil.
  - unfold bind in Hloop. destruct (body i d st) as [[] st1|o st1] eqn:Hbody; [|done].
    destruct (IH _ _ _ Hloop) as (news & Hseg & Hld & Htr & Hun & Hseen & Hnd & Hfresh & Hsym).
    apply step_ok in Hbody
      as [[_ ->] | (cls & seg & eff & o & Ho & Hlen & Hc & Hnew
                    & Hseg1 & Hld1 & Hsym1 & Hseen1 & Hun1 & Htr1)];
      [by exists news|].
    assert (Hname : name o.2 = name seg).
    { rewrite Ho. cbn. unfold prepared. by destruct (is_N64SegCode cls). }
    assert (Hcls : o.1 = cls) by by rewrite Ho.
    exists (o :: news).
    rewrite Hseg1 in Hseg. rewrite Hld1 in Hld. rewrite Htr1 in Htr.
    rewrite Hun1 in Hun. rewrite Hseen1 in Hseen, Hfresh. rewrite Hsym1 in Hsym.
    rewrite Hseg, Hld, Htr, Hun, Hseen. cbn [map concat]. rewrite <- !app_assoc.
    split; [done|]. split; [done|]. split; [done|].
    unfold required_by, unique_names, seen_after in *. cbn [map union_list filter].
    rewrite Hcls. split.
    { destruct (is_N64SegCode cls); set_solver. }
    rewrite filter_cons, Hcls. destruct (require_unique_name cls) eqn:Hu.
    + rewrite decide_True by done. cbn [map]. rewrite Hname.
      split; [set_solver|]. split.
      * apply NoDup_cons. split; [|done]. intros Hin. apply Hfresh in Hin. set_solver.
      * split; [|intros Hd; by apply Hsym, od_update_keys].
        intros n [->|Hin]%elem_of_cons; [by apply Hnew|].
        apply Hfresh in Hin. set_solver.
    + rewrite decide_False by done.
      split; [done|]. split; [done|]. split; [done|].
      intros Hd. by apply Hsym, od_update_keys.
Qed.

Lemma od_set_keys d k v k' :
  k' ∈ (od_set d k v).*1 ↔ k' ∈ d.*1 ∨ k' = k.
Proof.
  induction d as [|[k0 v0] d IH]; cbn.
  - rewrite list_elem_of_singleton. set_solver.
  - destruct (String.eqb_spec k0 k) as [->|Hne]; cbn; set_solver.
Qed.

Lemma od_update_elem_keys other : ∀ d k,
  k ∈ (od_update d other).*1 ↔ k ∈ d.*1 ∨ k ∈ other.*1.
Proof.
  unfold od_update. induction other as [|[k0 v0] other IH]; intros d k; cbn [fold_left].
  - set_solver.
  - rewrite IH, od_set_keys. set_solver.
Qed.

(** The symbols of the header after the first loop. *)
Lemma loop_symbols rest : ∀ i st st',
  loop i rest st = Ok tt st' →
  ∃ news,
    segments st' = segments st ++ news
    ∧ ∀ k, k ∈ (ld_symbols st').*1
           ↔ k ∈ (ld_symbols st).*1
             ∨ ∃ o, o ∈ news ∧ k ∈ (get_ld_section o.1 o.2).2.*1.
Proof.
  induction rest as [|d rest IH]; intros i st st' Hloop; cbn [init_segments] in Hloop.
  - unfold ret in Hloop. simplify_eq. exists []. rewrite app_nil_r.
    split; [done|]. intros k. split; [by left|]. intros [?|(o & []%elem_of_nil & _)]. done.
  - unfold bind in Hloop. destruct (body i d st) as [[] st1|o st1] eqn:Hbody; [|done].
    destruct (IH _ _ _ Hloop) as (news & Hseg & Hsym).
    apply step_ok in Hbody
      as [[_ ->] | (cls & seg & eff & o & Ho & Hlen & Hc & Hnew
                    & Hseg1 & Hld1 & Hsym1 & Hseen1 & Hun1 & Htr1)];
      [by exists news|].
    exists (o :: news). rewrite Hseg, Hseg1, <- app_assoc. split; [done|].
    intros k. rewrite Hsym, Hsym1, od_update_elem_keys. set_solver.
Qed.

Lemma postsplit_all_ok todo st st' :
  postsplit_all todo st = Ok tt st' →
  st' = with_trace st
          (trace st ++ map (λ id, EvPostsplit id (map (λ o, seg_id o.2) (segments st)))
                         (map (λ o, seg_id o.2) todo)).
Proof.
  intros H. destruct (postsplit_all_effect todo st) as (visited & Hfin & _ & Hok & _).
  rewrite H in Hfin, Hok. cbn [final outcome] in Hfin, Hok.
  by rewrite Hfin, Hok.
Qed.

Lemma write_ld_ok st st' :
  write_ld repo_path config options st = Ok tt st' →
  st' = with_trace st (trace st ++ ld_files_of st).
Proof.
  unfold write_ld, ld_files, when, bind, or_raise, get, emit, modify, ret, raise.
  destruct (_ || _); cbn; [|intros [= <-]; by rewrite with_trace_id].
  destruct (basename config) as [rom_name|]; cbn; [|done].
  destruct (ld_addrs_header options) as [h_path|]; cbn; intros [= <-];
    unfold with_trace; cbn; by rewrite <- ?app_assoc.
Qed.

(** What follows the first loop, when it completes. *)
Lemma finish_ok st1 st' :
  finishing st1 = Ok tt st' →
  st' = with_trace st1
          (trace st1
           ++ map (λ id, EvPostsplit id (map (λ o, seg_id o.2) (segments st1)))
                (map (λ o, seg_id o.2) (segments st1))
           ++ ld_files_of st1 ++ report_of st1).
Proof.
  assert (Hr : finishing st1
               = match postsplit_all (segments st1) st1 with
                 | Ok _ st2 =>
                     match write_ld repo_path config options st2 with
                     | Ok _ st3 => write_undefined_funcs repo_path c_funcs st3
                     | Stop o st3 => Stop o st3
                     end
                 | Stop o st2 => Stop o st2
                 end) by reflexivity.
  rewrite Hr. clear Hr.
  destruct (postsplit_all (segments st1) st1) as [[] st2|o st2] eqn:Hpost; [|done].
  apply postsplit_all_ok in Hpost.
  destruct (write_ld repo_path config options st2) as [[] st3|o st3] eqn:Hld; [|done].
  apply write_ld_ok in Hld. rewrite write_undefined_funcs_effect.
  intros [= <-]. subst st3 st2. unfold with_trace, ld_files, report_file. cbn.
  by rewrite <- !app_assoc.
Qed.

(** A run that completes: the first loop completes, and the rest only adds
    to the trace. *)
Lemma run_ok :
  outcome (the_run init_state) = None →
  ∃ st1,
    loop 0 (config_segments config) init_state = Ok tt st1
    ∧ final (the_run init_state)
      = with_trace st1
          (trace st1
           ++ map (λ id, EvPostsplit id (map (λ o, seg_id o.2) (segments st1)))
                (map (λ o, seg_id o.2) (segments st1))
           ++ ld_files_of st1 ++ report_of st1).
Proof.
  rewrite run_finish.
  destruct (loop 0 (config_segments config) init_state) as [[] st1|o st1]; [|done].
  intros Hnone. exists st1. split; [done|].
  destruct (finishing st1) as [[] st'|o st'] eqn:Hfin; [|done].
  by apply finish_ok in Hfin.
Qed.

(** Whatever follows the first loop leaves all but the trace as the loop
    left it. *)
Lemma run_after_loop :
  ∃ tr, final (the_run init_state)
        = with_trace (final (loop 0 (config_segments config) init_state)) tr.
Proof.
  rewrite run_finish.
  destruct (loop 0 (config_segments config) init_state) as [[] st1|o st1];
    cbn [final].
  - destruct (finish_effect st1) as (visited & post & Hfin & _). eauto.
  - exists (trace st1). by destruct st1.
Qed.

(** X9: the trace of a run that completes, in full: for every segment in
    order its construction, the optional announcement, [check], [split]
    and [get_ld_section]; then one [postsplit] per segment; then the
    linker script with the header; then the report. *)
Theorem completed_run_trace :
  let r := the_run init_state in
  let segs := segments (final r) in
  let all := map (λ o, seg_id o.2) segs in
  outcome r = None →
  trace (final r)
  = concat (map events_of segs)
    ++ map (λ id, EvPostsplit id all) all
    ++ ld_files_of (final r) ++ report_of (final r).
Proof.
  cbv zeta. intros (st1 & Hloop & ->)%run_ok.
  apply loop_ok in Hloop as (news & Hseg & _ & Htr & _).
  cbn in Hseg, Htr. unfold with_trace, ld_files, report_file.
  cbn [segments trace ld_sections ld_symbols undefined_funcs defined_funcs].
  by rewrite Htr, Hseg.
Qed.

(** X10: when the first loop completes, [ld_sections] holds one fragment
    per segment, in the order of the segments: the text of
    [get_ld_section] followed by its symbols; and a run that completes
    with the mode [ld] or [all] writes the linker script built from these
    fragments. *)
Theorem linker_script_follows_segments :
  let r := the_run init_state in
  let segs := segments (final r) in
  outcome (loop 0 (config_segments config) init_state) = None →
  ld_sections (final r) = map fragment segs
  ∧ (outcome r = None →
     mode_in "ld" (modes options) || mode_in "all" (modes options) = true →
     ∀ rom_name, basename config = Some rom_name →
       EvWrite (Py.path_join repo_path (rom_name ++ ".ld"))
         (ldscript_text (map fragment segs)) ∈ trace (final r)).
Proof.
  cbv zeta. intros Hnone.
  assert (Hsec : ld_sections (final (the_run init_state))
                 = map fragment (segments (final (the_run init_state)))).
  { destruct run_after_loop as (tr & ->).
    destruct (loop 0 (config_segments config) init_state) as [[] st1|o st1] eqn:Hloop;
      [|done].
    apply loop_ok in Hloop as (news & Hseg & Hld & _). cbn in *. congruence. }
  split; [done|]. intros Hrun Hmode rom_name Hbase.
  rewrite <- Hsec. clear Hsec.
  destruct (run_ok Hrun) as (st1 & _ & ->).
  unfold with_trace, ld_files. cbn [trace ld_sections]. rewrite Hmode, Hbase.
  unfold write_ldscript. cbn [fst snd].
  rewrite !elem_of_app. right. right. left. apply list_elem_of_here.
Qed.

(** X11: when the first loop completes, [undefined_funcs] is the union of
    the labels that the code segments ask for; so every name of the report
    is asked for by a code segment. *)
Theorem undefined_funcs_from_code_segments :
  let r := the_run init_state in
  let segs := segments (final r) in
  outcome (loop 0 (config_segments config) init_state) = None →
  undefined_funcs (final r) = required_by segs
  ∧ ∀ name,
      name ∈ to_write (undefined_funcs (final r)) (defined_funcs (final r)) c_funcs →
      ∃ o, o ∈ segs ∧ is_N64SegCode o.1 = true ∧ name ∈ glabels_to_add o.2.
Proof.
  cbv zeta. intros Hnone.
  assert (Hun : undefined_funcs (final (the_run init_state))
                = required_by (segments (final (the_run init_state)))).
  { destruct run_after_loop as (tr & ->).
    destruct (loop 0 (config_segments config) init_state) as [[] st1|o st1] eqn:Hloop;
      [|done].
    apply loop_ok in Hloop as (news & Hseg & _ & _ & Hun & _). cbn in *.
    rewrite Hun, Hseg. set_solver. }
  split; [done|]. intros name. unfold to_write.
  destruct (sorted_spec (minus_int_set (undefined_funcs (final (the_run init_state))
                                        ∖ defined_funcs (final (the_run init_state)))
                           (dom c_funcs))) as (_ & _ & ->).
  rewrite minus_int_set_id, Hun. intros [Hin _]%elem_of_difference.
  unfold required_by in Hin. apply elem_of_union_list in Hin as (X & HX & Hname).
  apply list_elem_of_fmap in HX as (o & -> & Ho).
  exists o. destruct (is_N64SegCode o.1); [done|set_solver].
Qed.

(** X12: when the first loop completes, the segments whose class requires
    a unique name have pairwise distinct names. *)
Theorem unique_names_distinct :
  let r := the_run init_state in
  outcome (loop 0 (config_segments config) init_state) = None →
  NoDup (unique_names (segments (final r))).
Proof.
  cbv zeta. intros Hnone. destruct run_after_loop as (tr & ->).
  destruct (loop 0 (config_segments config) init_state) as [[] st1|o st1] eqn:Hloop;
    [|done].
  apply loop_ok in Hloop as (news & Hseg & _ & _ & _ & _ & Hnd & _). cbn in *.
  by rewrite Hseg.
Qed.

(** X13: when the first loop completes, [ld_symbols] holds every symbol
    that some segment returned from [get_ld_section], no other symbol, and
    each of them once. *)
Theorem ld_symbols_follow_segments :
  let r := the_run init_state in
  outcome (loop 0 (config_segments config) init_state) = None →
  NoDup (ld_symbols (final r)).*1
  ∧ ∀ symbol,
      symbol ∈ (ld_symbols (final r)).*1
      ↔ ∃ o, o ∈ segments (final r) ∧ symbol ∈ (get_ld_section o.1 o.2).2.*1.
Proof.
  cbv zeta. intros Hnone. destruct run_after_loop as (tr & ->).
  destruct (loop 0 (config_segments config) init_state) as [[] st1|o st1] eqn:Hloop;
    [|done].
  cbn [final with_trace ld_symbols segments]. split.
  - apply loop_ok in Hloop as (news & _ & _ & _ & _ & _ & _ & _ & Hsym).
    apply Hsym. cbn. constructor.
  - apply loop_symbols in Hloop as (news & Hseg & Hsym). cbn in Hseg.
    intros symbol. rewrite Hsym, Hseg. cbn. set_solver.
Qed.




End EngineProps.

(** [main] gathers the symbol tables and runs the driver on them. *)
Lemma main_run parse_segment_type parse_segment_start parse_segment_name segtypes
    rom_bytes config repo_path sources modes verbose header c_funcs labels c_vars :
  config_options config = Some header →
  gather_c_funcs (functions_h sources) (symbol_addrs_txt sources) = Some (c_funcs, labels) →
  gather_c_variables (variables_h sources) (undefined_syms_txt sources) = Some c_vars →
  main parse_segment_type parse_segment_start parse_segment_name segtypes
    rom_bytes config repo_path sources modes verbose
  = run parse_segment_type parse_segment_start parse_segment_name segtypes
      rom_bytes repo_path config (mkOptions modes verbose header) c_funcs labels c_vars
      init_state.
Proof. unfold main. by intros -> -> ->. Qed.

(** X16: a line without a semicolon in [tools/symbol_addrs.txt], a blank
    line included, aborts [main] while the symbol tables are gathered: no
    segment is constructed, nothing is split and no file is written. *)
Theorem symbol_addrs_blank_line_aborts parse_segment_type parse_segment_start
    parse_segment_name segtypes rom_bytes config repo_path sources modes verbose
    (text line : string) :
  symbol_addrs_txt sources = Some text →
  line ∈ Py.readlines text →
  Py.find ";" (Py.strip line) = -1 →
  let r := main parse_segment_type parse_segment_start parse_segment_name segtypes
             rom_bytes config repo_path sources modes verbose in
  outcome r ≠ None ∧ exit_status (outcome r) = 1 ∧ final r = init_state.
Proof.
  intros Htext Hin Hno r. subst r. unfold main.
  destruct (config_options config) as [header|]; [|done].
  assert (Hline : ∀ st, symbol_addrs_line st line = None).
  { intros [funcs labels]. unfold symbol_addrs_line. rewrite (split_no_sep _ _ Hno). cbn.
    by destruct (Py.startswith (Py.strip line) "!"). }
  assert (Hnone : gather_c_funcs (functions_h sources) (symbol_addrs_txt sources) = None).
  { rewrite Htext. unfold gather_c_funcs.
    destruct (for_lines functions_h_line _ _) as [st|]; [|done]. cbn.
    by apply (for_lines_fails _ _ line). }
  by rewrite Hnone.
Qed.

(** The three descriptors [0x1000], [0x2000], [0x3000]: two segments,
    [[0x1000,0x2000)] and [[0x2000,0x3000)]. *)
Lemma segments_follow_descriptors_example :
  let r := Demo.main [] Demo.three_descriptors "out" Demo.no_sources
             (ModesStr "all") false in
  outcome r = None
  ∧ map (λ o, seg_id o.2) (segments (final r)) = [0%nat; 1%nat]
  ∧ map (λ o, (rom_start o.2, rom_end o.2)) (segments (final r))
    = [(0x1000, 0x2000); (0x2000, 0x3000)].
Proof.
  intros r.
  destruct (segments_follow_descriptors Demo.parse_segment_type
              Demo.parse_segment_start Demo.parse_segment_name Demo.segtypes
              [] "out" Demo.three_descriptors Demo.default_options ∅ ∅ ∅)
    as [_ Hids].
  split; [vm_compute; reflexivity|]. split.
  - apply Hids. vm_compute; reflexivity.
  - vm_compute; reflexivity.
Defined.

(** Two code segments named [main]: the run stops at the second one. *)
Lemma duplicate_name_aborts_example :
  let r := Demo.main [] Demo.two_mains "out" Demo.no_sources (ModesStr "all") false in
  outcome r ≠ None
  ∧ exit_status (outcome r) = 1
  ∧ (EvSplit 1 ∉ trace (final r))
  ∧ trace (final r)
    = [EvNew 0; EvCheck 0; EvSplit 0; EvGetLdSection 0; EvNew 1;
       EvPrint "ERROR: Segment name main is not unique"].
Proof.
  intros r.
  destruct (duplicate_name_aborts Demo.parse_segment_type
              Demo.parse_segment_start Demo.parse_segment_name Demo.segtypes
              [] "out" Demo.two_mains Demo.default_options ∅ ∅ ∅
              0%nat 1%nat (Demo.descriptor 0x1000 "code" "main")
              (Demo.descriptor 0x2000 "code" "main")
              Demo.N64SegCode Demo.N64SegCode
              (mkSegment 0 "code" "main" 0x1000 0x2000 false ∅ ∅)
              (mkSegment 1 "code" "main" 0x2000 0x3000 false ∅ ∅))
    as (Hstop & Hstatus & Hnosplit & _);
    [lia | reflexivity | reflexivity | discriminate | discriminate
     | vm_compute; reflexivity | vm_compute; reflexivity
     | reflexivity | reflexivity | reflexivity |].
  split; [exact Hstop|]. split; [exact Hstatus|]. split; [exact Hnosplit|].
  vm_compute; reflexivity.
Defined.

(** Raw data, then code: both are split before either is post-split, and
    each [postsplit] receives both segments. *)
Lemma postsplit_after_every_split_example :
  let r := Demo.main [] Demo.bin_then_code "out" Demo.no_sources (ModesStr "all") false in
  ∃ pre post,
    trace (final r)
    = (pre ++ [EvPostsplit 0 [0; 1]%nat; EvPostsplit 1 [0; 1]%nat] ++ post)%list
    ∧ EvSplit 0 ∈ pre ∧ EvSplit 1 ∈ pre
    ∧ Forall is_write post.
Proof.
  intros r.
  pose proof (postsplit_after_every_split Demo.parse_segment_type
                Demo.parse_segment_start Demo.parse_segment_name Demo.segtypes
                [] "out" Demo.bin_then_code Demo.default_options ∅ ∅ ∅) as H.
  cbv zeta in H.
  set (r' := run Demo.parse_segment_type Demo.parse_segment_start
               Demo.parse_segment_name Demo.segtypes [] "out" Demo.bin_then_code
               Demo.default_options ∅ ∅ ∅ init_state) in H.
  assert (Hr : r' = r) by (vm_compute; reflexivity).
  assert (Hnone : outcome r' = None) by (vm_compute; reflexivity).
  assert (Hids : map (λ o : SegClass * Segment, seg_id o.2) (segments (final r'))
                 = [0; 1]%nat) by (vm_compute; reflexivity).
  rewrite Hids in H. rewrite Hr in H. clear Hr Hids.
  destruct H as (pre & visited & post & Htrace & _ & Hpost & _ & Hall & Hsplit).
  rewrite (Hall Hnone) in Htrace.
  exists pre, post. split; [exact Htrace|]. split; [|split; [|exact Hpost]].
  - apply Hsplit; [by right | apply list_elem_of_here].
  - apply Hsplit; [by right | apply list_elem_of_further, list_elem_of_here].
Defined.

(** A segment of raw data leaves the two sets alone and is not injected;
    the code segment after it receives the shared state. *)
Lemma shared_state_only_for_code_example :
  let body := init_segment Demo.parse_segment_type Demo.parse_segment_start
                Demo.parse_segment_name Demo.segtypes [] "out" Demo.bin_then_code
                Demo.default_options ∅ ∅ ∅ in
  let st := mkState [] [] [] ∅ {[ "f" ]} {[ "g" ]} [] in
  (defined_funcs (final (body 0%nat (Demo.descriptor 0x1000 "bin" "a") st)) = {[ "f" ]}
   ∧ undefined_funcs (final (body 0%nat (Demo.descriptor 0x1000 "bin" "a") st)) = {[ "g" ]})
  ∧ ∃ eff,
      defined_funcs (final (body 1%nat (Demo.descriptor 0x2000 "code" "main") st))
      = eff_all_functions eff ∪ eff_glabels_added eff
      ∧ undefined_funcs (final (body 1%nat (Demo.descriptor 0x2000 "code" "main") st))
        = {[ "g" ]} ∪ eff_glabels_to_add eff.
Proof.
  intros body st. split.
  - destruct (shared_state_only_for_code Demo.parse_segment_type
                Demo.parse_segment_start Demo.parse_segment_name Demo.segtypes
                [] "out" Demo.bin_then_code Demo.default_options ∅ ∅ ∅
                0%nat (Demo.descriptor 0x1000 "bin" "a") st) as [Hframe _].
    destruct Hframe as (Hd & Hu & _); [|by split].
    right. intros cls Hcls. vm_compute in Hcls. by injection Hcls as <-.
  - destruct (shared_state_only_for_code Demo.parse_segment_type
                Demo.parse_segment_start Demo.parse_segment_name Demo.segtypes
                [] "out" Demo.bin_then_code Demo.default_options ∅ ∅ ∅
                1%nat (Demo.descriptor 0x2000 "code" "main") st) as (_ & _ & _ & Hcode).
    destruct (Hcode Demo.N64SegCode (mkSegment 1 "code" "main" 0x2000 0x3000 false ∅ ∅))
      as (eff & _ & _ & Hd & Hu);
      [discriminate | vm_compute; reflexivity | reflexivity | reflexivity |].
    exists eff. by split.
Defined.

(** Raw data, then code, with the announcements and the address header. *)
Lemma completed_run_trace_example :
  let r := run Demo.parse_segment_type Demo.parse_segment_start
             Demo.parse_segment_name Demo.segtypes [] "out" Demo.bin_then_code
             Demo.header_options ∅ ∅ ∅ init_state in
  outcome r = None
  ∧ trace (final r)
    = (concat (map (segment_events Demo.header_options) (segments (final r)))
       ++ map (λ id, EvPostsplit id (map (λ o, seg_id o.2) (segments (final r))))
            (map (λ o, seg_id o.2) (segments (final r)))
       ++ ld_files "out" Demo.bin_then_code Demo.header_options (final r)
       ++ report_file "out" ∅ (final r))%list
  ∧ length (trace (final r)) = 15%nat.
Proof.
  intros r. subst r. split; [vm_compute; reflexivity|]. split.
  - apply (completed_run_trace Demo.parse_segment_type Demo.parse_segment_start
             Demo.parse_segment_name Demo.segtypes [] "out" Demo.bin_then_code
             Demo.header_options ∅ ∅ ∅).
    vm_compute; reflexivity.
  - vm_compute; reflexivity.
Defined.

(** Raw data, then code: two fragments, and the script [out/rom.ld] made
    of them. *)
Lemma linker_script_follows_segments_example :
  let r := run Demo.parse_segment_type Demo.parse_segment_start
             Demo.parse_segment_name Demo.segtypes [] "out" Demo.bin_then_code
             Demo.default_options ∅ ∅ ∅ init_state in
  ld_sections (final r) = map fragment (segments (final r))
  ∧ EvWrite (Py.path_join "out" ("rom" ++ ".ld"))
      (ldscript_text (map fragment (segments (final r)))) ∈ trace (final r)
  ∧ ld_sections (final r) = ["a"; "mainmain_ROM_START = 0x2000;" ++ NL].
Proof.
  intros r. subst r.
  destruct (linker_script_follows_segments Demo.parse_segment_type
              Demo.parse_segment_start Demo.parse_segment_name Demo.segtypes
              [] "out" Demo.bin_then_code Demo.default_options ∅ ∅ ∅)
    as [Hsec Hw]; [vm_compute; reflexivity|].
  split; [exact Hsec|]. split.
  - apply Hw; [vm_compute; reflexivity | vm_compute; reflexivity | reflexivity].
  - vm_compute; reflexivity.
Defined.

(** Raw data, then code: the one reported name comes from the code
    segment. *)
Lemma undefined_funcs_from_code_segments_example :
  let r := run Demo.parse_segment_type Demo.parse_segment_start
             Demo.parse_segment_name Demo.segtypes [] "out" Demo.bin_then_code
             Demo.default_options ∅ ∅ ∅ init_state in
  undefined_funcs (final r) = required_by (segments (final r))
  ∧ ∃ o, o ∈ segments (final r) ∧ is_N64SegCode o.1 = true
         ∧ "func_80001000" ∈ glabels_to_add o.2.
Proof.
  intros r. subst r.
  destruct (undefined_funcs_from_code_segments Demo.parse_segment_type
              Demo.parse_segment_start Demo.parse_segment_name Demo.segtypes
              [] "out" Demo.bin_then_code Demo.default_options ∅ ∅ ∅)
    as [Hun Hrep]; [vm_compute; reflexivity|].
  split; [exact Hun|]. apply Hrep.
  match goal with
  | |- _ ∈ ?l =>
      assert (Hw : l = ["func_80001000"]) by (vm_compute; reflexivity); rewrite Hw
  end.
  apply list_elem_of_here.
Defined.

(** Raw data, then code: one name is to be unique. *)
Lemma unique_names_distinct_example :
  let r := run Demo.parse_segment_type Demo.parse_segment_start
             Demo.parse_segment_name Demo.segtypes [] "out" Demo.bin_then_code
             Demo.default_options ∅ ∅ ∅ init_state in
  NoDup (unique_names (segments (final r)))
  ∧ unique_names (segments (final r)) = ["main"].
Proof.
  intros r. subst r. split.
  - apply (unique_names_distinct Demo.parse_segment_type Demo.parse_segment_start
             Demo.parse_segment_name Demo.segtypes [] "out" Demo.bin_then_code
             Demo.default_options ∅ ∅ ∅).
    vm_compute; reflexivity.
  - vm_compute; reflexivity.
Defined.

(** Raw data, then code: the one symbol is that of the code segment. *)
Lemma ld_symbols_follow_segments_example :
  let r := run Demo.parse_segment_type Demo.parse_segment_start
             Demo.parse_segment_name Demo.segtypes [] "out" Demo.bin_then_code
             Demo.default_options ∅ ∅ ∅ init_state in
  (NoDup (ld_symbols (final r)).*1
   ∧ ∀ symbol,
       symbol ∈ (ld_symbols (final r)).*1
       ↔ ∃ o, o ∈ segments (final r) ∧ symbol ∈ (get_ld_section o.1 o.2).2.*1)
  ∧ ld_symbols (final r) = [("main_ROM_START", 0x2000)].
Proof.
  intros r. subst r. split.
  - apply (ld_symbols_follow_segments Demo.parse_segment_type Demo.parse_segment_start
             Demo.parse_segment_name Demo.segtypes [] "out" Demo.bin_then_code
             Demo.default_options ∅ ∅ ∅).
    vm_compute; reflexivity.
  - vm_compute; reflexivity.
Defined.



(** A manual list with an entry followed by an empty line. *)
Lemma symbol_addrs_blank_line_aborts_example :
  let r := Demo.main [] Demo.three_descriptors "out"
             (mkSources None (Some ("foo;0x80002000;" ++ NL ++ NL)) None None)
             (ModesStr "all") false in
  outcome r ≠ None ∧ exit_status (outcome r) = 1 ∧ final r = init_state.
Proof.
  intros r. subst r.
  apply (symbol_addrs_blank_line_aborts Demo.parse_segment_type
           Demo.parse_segment_start Demo.parse_segment_name Demo.segtypes
           [] Demo.three_descriptors "out"
           (mkSources None (Some ("foo;0x80002000;" ++ NL ++ NL)) None None)
           (ModesStr "all") false ("foo;0x80002000;" ++ NL ++ NL) NL).
  - reflexivity.
  - vm_compute. apply list_elem_of_further, list_elem_of_here.
  - reflexivity.
Defined.
